(** * Interactive playground: the model logic of [InteractivePlayground.tsx]

    The helper functions of [src/components/InteractivePlayground.tsx]
    ([trueFunction], [generateTrainingData], [getLineData],
    [calculateModelFunction]) embedded as Rocq functions.

    Numbers.  A JavaScript [number] is modelled as an extended real: a real
    number, one of the two infinities, or NaN.  The arithmetic follows
    IEEE-754 on these values (what [0/0], [1/0], [0 * Infinity],
    [Infinity - Infinity] give, how NaN propagates, how comparisons with NaN
    answer), with two idealisations: finite results are not rounded, and
    there is a single zero (it divides like [+0]).  This is the data model of
    the specification ([x: real]) extended with the non-finite values the
    source can produce by dividing by zero.

    Loop counters ([numPoints], [steps], [i]) are natural numbers.

    Where rounding decides a property of [getLineData], the function is
    embedded a second time on the kernel's binary64 floats (module
    [Double]) and evaluated there. *)

From Stdlib Require Import PrimFloat.
From Stdlib Require Import Reals Lra Lia List String ZArith Bool Sorted Factorial.
Import ListNotations.

Open Scope R_scope.

(* ================================================================== *)
(** ** JavaScript numbers *)

Module Js.

Inductive number : Type :=
| Fin (r : R)
| PInf
| NInf
| NaN.

Inductive sign3 : Type := Neg | Zero | Pos.

Definition Rsign3 (r : R) : sign3 :=
  match total_order_T r 0 with
  | inleft (left _) => Neg
  | inleft (right _) => Zero
  | inright _ => Pos
  end.

Definition Rleb (a b : R) : bool := if Rle_dec a b then true else false.
Definition Rltb (a b : R) : bool := if Rlt_dec a b then true else false.
Definition Reqb (a b : R) : bool := if Req_dec_T a b then true else false.

(** Unary minus. *)
Definition neg (a : number) : number :=
  match a with
  | Fin r => Fin (- r)
  | PInf => NInf
  | NInf => PInf
  | NaN => NaN
  end.

(** [a + b]. *)
Definition add (a b : number) : number :=
  match a, b with
  | NaN, _ | _, NaN => NaN
  | Fin r, Fin s => Fin (r + s)
  | PInf, NInf | NInf, PInf => NaN
  | PInf, _ | _, PInf => PInf
  | NInf, _ | _, NInf => NInf
  end.

(** [a - b]. *)
Definition sub (a b : number) : number := add a (neg b).

(** The infinity of a given sign; NaN for the sign of zero. *)
Definition inf_of (s : sign3) : number :=
  match s with
  | Pos => PInf
  | Neg => NInf
  | Zero => NaN
  end.

Definition sign_mul (s t : sign3) : sign3 :=
  match s, t with
  | Zero, _ | _, Zero => Zero
  | Pos, Pos | Neg, Neg => Pos
  | Pos, Neg | Neg, Pos => Neg
  end.

(** [a * b]: an infinity times zero is NaN. *)
Definition mul (a b : number) : number :=
  match a, b with
  | NaN, _ | _, NaN => NaN
  | Fin r, Fin s => Fin (r * s)
  | Fin r, PInf | PInf, Fin r => inf_of (Rsign3 r)
  | Fin r, NInf | NInf, Fin r => inf_of (sign_mul (Rsign3 r) Neg)
  | PInf, PInf | NInf, NInf => PInf
  | PInf, NInf | NInf, PInf => NInf
  end.

(** [a / b]: [0/0] and [Infinity/Infinity] are NaN, a non-zero finite number
    over zero is an infinity, a finite number over an infinity is zero. *)
Definition div (a b : number) : number :=
  match a, b with
  | NaN, _ | _, NaN => NaN
  | Fin r, Fin s =>
      if Req_dec_T s 0 then inf_of (Rsign3 r) else Fin (r / s)
  | Fin _, PInf | Fin _, NInf => Fin 0
  | PInf, Fin s => if Rltb s 0 then NInf else PInf
  | NInf, Fin s => if Rltb s 0 then PInf else NInf
  | PInf, _ | NInf, _ => NaN
  end.

(** [Math.sin]. *)
Definition sin (a : number) : number :=
  match a with
  | Fin r => Fin (Rtrigo_def.sin r)
  | _ => NaN
  end.

(** [Math.floor]. *)
Definition floor (a : number) : number :=
  match a with
  | Fin r => Fin (IZR (Int_part r))
  | other => other
  end.

(** [Math.abs]. *)
Definition abs (a : number) : number :=
  match a with
  | Fin r => Fin (Rabs r)
  | PInf | NInf => PInf
  | NaN => NaN
  end.

(** [Math.sign]. *)
Definition sign (a : number) : number :=
  match a with
  | Fin r =>
      match Rsign3 r with
      | Pos => Fin 1
      | Neg => Fin (-1)
      | Zero => Fin 0
      end
  | PInf => Fin 1
  | NInf => Fin (-1)
  | NaN => NaN
  end.

(** [Math.max(a, b)]: NaN as soon as one argument is. *)
Definition max (a b : number) : number :=
  match a, b with
  | NaN, _ | _, NaN => NaN
  | Fin r, Fin s => Fin (Rmax r s)
  | PInf, _ | _, PInf => PInf
  | NInf, other | other, NInf => other
  end.

(** [a <= b]: false as soon as one side is NaN. *)
Definition leb (a b : number) : bool :=
  match a, b with
  | NaN, _ | _, NaN => false
  | Fin r, Fin s => Rleb r s
  | NInf, _ | _, PInf => true
  | PInf, _ | _, NInf => false
  end.

(** [a < b]. *)
Definition ltb (a b : number) : bool :=
  match a, b with
  | NaN, _ | _, NaN => false
  | Fin r, Fin s => Rltb r s
  | PInf, _ | _, NInf => false
  | NInf, _ | _, PInf => true
  end.

(** [a > b]. *)
Definition gtb (a b : number) : bool := ltb b a.

(** [a === b] on numbers: NaN is equal to nothing. *)
Definition eqb (a b : number) : bool :=
  match a, b with
  | Fin r, Fin s => Reqb r s
  | PInf, PInf | NInf, NInf => true
  | _, _ => false
  end.

(** [Math.PI]. *)
Definition PI : number := Fin Rtrigo1.PI.

(** A loop counter used as a number. *)
Definition of_nat (n : nat) : number := Fin (INR n).

Definition is_finite (a : number) : bool :=
  match a with
  | Fin _ => true
  | _ => false
  end.

End Js.

Import Js.

Declare Scope js_scope.
Delimit Scope js_scope with js.
Bind Scope js_scope with number.
Infix "+" := add : js_scope.
Infix "-" := sub : js_scope.
Infix "*" := mul : js_scope.
Infix "/" := div : js_scope.
Infix "<=?" := leb (at level 70) : js_scope.
Infix "<?" := ltb (at level 70) : js_scope.
Infix ">?" := gtb (at level 70) : js_scope.
Infix "===" := eqb (at level 70) : js_scope.

Open Scope js_scope.

(* ================================================================== *)
(** ** Types of [../types] *)

(** Modelled from the spec: the interface [DataPoint] of [../types], which
    is not among the source files: an ordered pair [(x: real, y: real)],
    built in the source as [{ x, y }]. *)
Module DataPoint.
Record t : Type := mk { x : number; y : number }.
End DataPoint.

(** Modelled from the spec: the enumeration [RegularizationType] of
    [../types], which is not among the source files: one of
    [{none, l1, l2}], used in the source as [RegularizationType.None],
    [RegularizationType.L1] and [RegularizationType.L2]. *)
Module RegularizationType.
Inductive t : Type := None | L1 | L2.

Definition eqb (a b : t) : bool :=
  match a, b with
  | None, None | L1, L1 | L2, L2 => true
  | _, _ => false
  end.
End RegularizationType.

(** The value [calculateModelFunction] returns. *)
Record FittedModel : Type := mkFitted {
  model : number -> number;
  description : string
}.

(* ================================================================== *)
(** ** The helper functions *)

(** [const trueFunction = (x) => Math.sin(x * Math.PI * 0.5)] *)
Definition trueFunction (x : number) : number :=
  Js.sin (x * Js.PI * Fin 0.5).

(** The closure [pseudoRandom] of [generateTrainingData], with its captured
    variable [currentSeed] passed explicitly: it returns the sample and the
    seed after the call.  [Math.sin(currentSeed++)] reads the seed and then
    increments it. *)
Definition pseudoRandom (currentSeed : number) : number * number :=
  let x := Js.sin currentSeed * Fin 10000 in
  (x - Js.floor x, currentSeed + Fin 1).

(** The first [k] samples drawn from [pseudoRandom], the seed threaded
    from one call to the next. *)
Fixpoint pseudoRandomCalls (k : nat) (currentSeed : number) : list number :=
  match k with
  | O => []
  | S k' =>
      let '(r, seed') := pseudoRandom currentSeed in
      r :: pseudoRandomCalls k' seed'
  end.

(** The mutable variables of the loop of [generateTrainingData]. *)
Record GenState : Type := mkGen {
  gen_i : nat;
  gen_seed : number;
  gen_data : list DataPoint.t
}.

(** One pass through the body of the [for] loop, followed by [i++]. *)
Definition generateBody (numPoints : nat) (noiseLevel : number)
  (st : GenState) : GenState :=
  let i := gen_i st in
  let x := Fin (-2) + (Fin 4 * of_nat i) / (of_nat numPoints - Fin 1) in
  let '(r, seed') := pseudoRandom (gen_seed st) in
  let noise := (r - Fin 0.5) * noiseLevel * Fin 2 in
  let y := trueFunction x + noise in
  mkGen (S i) seed' (gen_data st ++ [DataPoint.mk x y]).

(** The loop [for (let i = 0; i < numPoints; i++)], run for at most [fuel]
    passes. *)
Fixpoint generateLoop (fuel : nat) (numPoints : nat) (noiseLevel : number)
  (st : GenState) : GenState :=
  match fuel with
  | O => st
  | S fuel' =>
      if (gen_i st <? numPoints)%nat
      then generateLoop fuel' numPoints noiseLevel
             (generateBody numPoints noiseLevel st)
      else st
  end.

(** [generateTrainingData(numPoints, noiseLevel, seed)]: the loop starts at
    [i = 0] and leaves after [numPoints] passes. *)
Definition generateTrainingData (numPoints : nat) (noiseLevel seed : number)
  : list DataPoint.t :=
  gen_data (generateLoop numPoints numPoints noiseLevel (mkGen 0 seed [])).


(** The loop of [getLineData]: [for (let i = 0; i <= steps; i++)], the
    [fuel] passes that remain from [i] on. *)
Fixpoint lineLoop (fuel : nat) (model : number -> number)
  (lo stepSize : number) (i : nat) (data : list DataPoint.t)
  : list DataPoint.t :=
  match fuel with
  | O => data
  | S fuel' =>
      let x := lo + of_nat i * stepSize in
      let y := model x in
      lineLoop fuel' model lo stepSize (S i) (data ++ [DataPoint.mk x y])
  end.

(** [getLineData(model, domain, steps)] *)
Definition getLineData (model : number -> number) (domain : number * number)
  (steps : nat) : list DataPoint.t :=
  let stepSize := (snd domain - fst domain) / of_nat steps in
  lineLoop (S steps) model (fst domain) stepSize 0%nat [].

(** The description texts of [calculateModelFunction]. *)
Definition underfittingText : string :=
  "Underfitting: The model is too simple (a straight line) and cannot capture the underlying curved trend in the data, resulting in high error on both training and new data.".

Definition overfittingText : string :=
  "Overfitting: The model is overly complex. It learns the noise in the training data, not just the signal. This model will perform poorly on new, unseen data because it has memorized the training set's quirks.".

Definition goodFitText : string :=
  "Good Fit: The model complexity is appropriate for the data. It captures the underlying trend without fitting the noise, achieving good generalization.".

Definition l1Text : string :=
  "L1 Regularization (Lasso) is applied. It penalizes the absolute size of coefficients. Notice how it can shrink the 'wiggles' (analogous to coefficients) to exactly zero, simplifying the model and performing feature selection.".

Definition l2Text : string :=
  "L2 Regularization (Ridge) is applied. It penalizes the squared size of coefficients. It shrinks the 'wiggles' towards zero but rarely makes them exactly zero, preventing any single feature from dominating.".

Definition lowComplexitySuffix : string :=
  " With a low-complexity model, regularization has a smaller effect but still helps prevent overfitting.".

Definition highComplexitySuffix : string :=
  " The regularization penalty effectively smooths the overfitted curve, leading to better generalization on unseen data.".

(** The four running sums of the underfitting case. *)
Record Sums : Type := mkSums {
  sumX : number;
  sumY : number;
  sumXY : number;
  sumX2 : number
}.

(** The callback of [data.forEach]. *)
Definition accumulate (s : Sums) (p : DataPoint.t) : Sums :=
  let x := DataPoint.x p in
  let y := DataPoint.y p in
  mkSums (sumX s + x) (sumY s + y) (sumXY s + x * y) (sumX2 s + x * x).

(** The sums after [data.forEach], all started at [0]. *)
Definition dataSums (data : list DataPoint.t) : Sums :=
  fold_left accumulate data (mkSums (Fin 0) (Fin 0) (Fin 0) (Fin 0)).

(** The slope [m] and the intercept [b] of the underfitting case. *)
Definition slope (data : list DataPoint.t) : number :=
  let s := dataSums data in
  let n := of_nat (List.length data) in
  (n * sumXY s - sumX s * sumY s) / (n * sumX2 s - sumX s * sumX s).

Definition intercept (data : list DataPoint.t) : number :=
  let s := dataSums data in
  let n := of_nat (List.length data) in
  let m := slope data in
  (sumY s - m * sumX s) / n.

(** [const wiggle = noise * 0.7 * Math.sin(x * Math.PI * complexity / 2)],
    the expression the three model closures share. *)
Definition wiggle (noise complexity x : number) : number :=
  noise * Fin 0.7 * Js.sin (x * Js.PI * complexity / Fin 2).

(** [regularizedWiggle] of the L1 closure. *)
Definition regularizedWiggleL1 (regStrength w : number) : number :=
  Js.sign w * Js.max (Fin 0) (Js.abs w - regStrength * Fin 0.05).

(** [regularizedWiggle] of the L2 closure. *)
Definition regularizedWiggleL2 (regStrength w : number) : number :=
  w / (Fin 1 + regStrength * Fin 0.5).

(** [baseOverfitModel] *)
Definition baseOverfitModel (noise complexity : number) (x : number)
  : number :=
  let w := wiggle noise complexity x in
  trueFunction x + w.

(** The model closure of [case RegularizationType.L1]. *)
Definition modelL1 (noise complexity regStrength : number) (x : number)
  : number :=
  let w := wiggle noise complexity x in
  let regularizedWiggle := regularizedWiggleL1 regStrength w in
  trueFunction x + regularizedWiggle.

(** The model closure of [case RegularizationType.L2]. *)
Definition modelL2 (noise complexity regStrength : number) (x : number)
  : number :=
  let w := wiggle noise complexity x in
  let regularizedWiggle := regularizedWiggleL2 regStrength w in
  trueFunction x + regularizedWiggle.

(** The [switch (regType)]: the model and the description it assigns. *)
Definition switchRegType (complexity : number) (regType : RegularizationType.t)
  (regStrength noise : number) : FittedModel :=
  match regType with
  | RegularizationType.L1 =>
      mkFitted (modelL1 noise complexity regStrength)
        (if regStrength === Fin 0 then overfittingText else l1Text)
  | RegularizationType.L2 =>
      mkFitted (modelL2 noise complexity regStrength)
        (if regStrength === Fin 0 then overfittingText else l2Text)
  | RegularizationType.None =>
      mkFitted (baseOverfitModel noise complexity)
        (if complexity >? Fin 5 then overfittingText else goodFitText)
  end.

(** [calculateModelFunction(data, complexity, regType, regStrength, noise)] *)
Definition calculateModelFunction (data : list DataPoint.t)
  (complexity : number) (regType : RegularizationType.t)
  (regStrength noise : number) : FittedModel :=
  if complexity <=? Fin 1 then
    let m := slope data in
    let b := intercept data in
    mkFitted (fun x => m * x + b) underfittingText
  else
    let fit := switchRegType complexity regType regStrength noise in
    if (regStrength >? Fin 0)
       && negb (RegularizationType.eqb regType RegularizationType.None)
    then
      if complexity <=? Fin 5
      then mkFitted (model fit) (description fit ++ lowComplexitySuffix)%string
      else mkFitted (model fit) (description fit ++ highComplexitySuffix)%string
    else fit.

(* ================================================================== *)
(** ** Definitions used to state the properties *)

(** The seed after [k] calls of [pseudoRandom]. *)
Definition seedAfter (seed : number) (k : nat) : number :=
  Nat.iter k (fun s => s + Fin 1) seed.

(** The x-coordinate the loop of [generateTrainingData] computes at [i]. *)
Definition genX (numPoints i : nat) : number :=
  Fin (-2) + (Fin 4 * of_nat i) / (of_nat numPoints - Fin 1).

(** The point the loop pushes at index [i] when the seed it reads is
    [currentSeed]. *)
Definition genPoint (numPoints : nat) (noiseLevel : number) (i : nat)
  (currentSeed : number) : DataPoint.t :=
  let x := genX numPoints i in
  let r := fst (pseudoRandom currentSeed) in
  DataPoint.mk x (trueFunction x + (r - Fin 0.5) * noiseLevel * Fin 2).

(** The points pushed by [fuel] consecutive passes from index [i]. *)
Fixpoint genPoints (numPoints : nat) (noiseLevel : number) (fuel i : nat)
  (currentSeed : number) : list DataPoint.t :=
  match fuel with
  | O => []
  | S fuel' =>
      genPoint numPoints noiseLevel i currentSeed
        :: genPoints numPoints noiseLevel fuel' (S i) (currentSeed + Fin 1)
  end.

(** The point [getLineData] pushes at index [i]. *)
Definition linePoint (model : number -> number) (lo stepSize : number)
  (i : nat) : DataPoint.t :=
  let x := lo + of_nat i * stepSize in
  DataPoint.mk x (model x).

(** A training set all of whose coordinates are finite. *)
Definition pointOf (p : R * R) : DataPoint.t :=
  DataPoint.mk (Fin (fst p)) (Fin (snd p)).

Definition finiteData (l : list (R * R)) : list DataPoint.t :=
  map pointOf l.

(** The sums of the normal equations, as the specification writes them. *)
Definition sigma (f : R * R -> R) (l : list (R * R)) : R :=
  fold_right (fun p acc => (f p + acc)%R) 0%R l.

Definition sigmaX (l : list (R * R)) : R := sigma fst l.
Definition sigmaY (l : list (R * R)) : R := sigma snd l.
Definition sigmaXY (l : list (R * R)) : R :=
  sigma (fun p => (fst p * snd p)%R) l.
Definition sigmaX2 (l : list (R * R)) : R :=
  sigma (fun p => (fst p * fst p)%R) l.

(** The denominator [n*sum(x^2) - sum(x)^2] of the slope. *)
Definition olsDenominator (l : list (R * R)) : R :=
  (INR (List.length l) * sigmaX2 l - sigmaX l * sigmaX l)%R.

(** [m = (n*sum(xy) - sum(x)*sum(y)) / (n*sum(x^2) - sum(x)^2)] *)
Definition olsSlope (l : list (R * R)) : R :=
  ((INR (List.length l) * sigmaXY l - sigmaX l * sigmaY l)
   / olsDenominator l)%R.

(** [b = (sum(y) - m*sum(x)) / n] *)
Definition olsIntercept (l : list (R * R)) : R :=
  ((sigmaY l - olsSlope l * sigmaX l) / INR (List.length l))%R.

(** At least two distinct x-values. *)
Definition twoDistinctX (l : list (R * R)) : Prop :=
  exists p q, In p l /\ In q l /\ fst p <> fst q.

(** All x-values coincide. *)
Definition allSameX (l : list (R * R)) : Prop :=
  exists c, forall p, In p l -> fst p = c.

(** The x-values of a sequence of points increase strictly. *)
Definition xStrictlyIncreasing (l : list DataPoint.t) : Prop :=
  StronglySorted (fun p q => (DataPoint.x p <? DataPoint.x q) = true) l.

(** The sum of the squared distances of the x-values of [l] to [a]. *)
Definition sqDist (a : R) (l : list (R * R)) : R :=
  sigma (fun p => ((fst p - a) * (fst p - a))%R) l.

(* ================================================================== *)
(** ** The hook [useModelData] *)

(** The five state variables of [useModelData] ([useState]) and the derived
    data it returns. *)
Module Hook.
Record State : Type := mkState {
  complexity : number;
  noise : number;
  regType : RegularizationType.t;
  regStrength : number;
  dataSeed : number
}.

Record Data : Type := mkData {
  trainingData : list DataPoint.t;
  trueLine : list DataPoint.t;
  modelLine : list DataPoint.t;
  description : string
}.
End Hook.

(** The initial values given to [useState]. *)
Definition initialState : Hook.State :=
  Hook.mkState (Fin 10) (Fin 0.5) RegularizationType.None (Fin 0.0) (Fin 1).

(** The derived data of one render of [useModelData].  Every [useMemo]
    lists in its dependencies all the variables its function reads, so the
    memoized value is the value of the function on the current state. *)
Definition useModelData (st : Hook.State) : Hook.Data :=
  let trainingData :=
    generateTrainingData 30 (Hook.noise st) (Hook.dataSeed st) in
  let trueLine := getLineData trueFunction (Fin (-2), Fin 2) 100 in
  let fit :=
    calculateModelFunction trainingData (Hook.complexity st)
      (Hook.regType st) (Hook.regStrength st) (Hook.noise st) in
  let modelLine := getLineData (model fit) (Fin (-2), Fin 2) 100 in
  Hook.mkData trainingData trueLine modelLine (description fit).

(** [regenerateData]: [setDataSeed(s => s + 1)]. *)
Definition regenerateData (st : Hook.State) : Hook.State :=
  Hook.mkState (Hook.complexity st) (Hook.noise st) (Hook.regType st)
    (Hook.regStrength st) (Hook.dataSeed st + Fin 1).

(* ================================================================== *)
(** ** Further definitions used to state properties *)

(** The residual of the point [p] against the line [y = m*x + b]. *)
Definition residual (m b : R) (p : R * R) : R :=
  (snd p - (m * fst p + b))%R.

(** The sum of the squared residuals of a training set against a line. *)
Definition sse (m b : R) (l : list (R * R)) : R :=
  sigma (fun p => (residual m b p * residual m b p)%R) l.

(** A point with finite coordinates inside the box [[-2, 2] x [-2, 2]] that
    [ModelChart] gives to its axes ([domain={[-2, 2]}]). *)
Definition inChart (p : DataPoint.t) : Prop :=
  exists u v : R,
    p = DataPoint.mk (Fin u) (Fin v)
    /\ (-2 <= u <= 2)%R /\ (-2 <= v <= 2)%R.

(** The divisor [n * sumX2 - sumX * sumX] of the slope, as
    [calculateModelFunction] computes it. *)
Definition slopeDenominator (data : list DataPoint.t) : number :=
  let s := dataSums data in
  let n := of_nat (List.length data) in
  n * sumX2 s - sumX s * sumX s.

(* ================================================================== *)
(** ** [getLineData] on binary64 floats *)

(** [getLineData] once more, on the kernel's IEEE-754 binary64 floats, with
    their rounding: the coordinates, [steps] and the loop counter [i] are
    doubles, as in the source.  [fuel] bounds the number of tests of
    [i <= steps]; the result is [None] when the fuel runs out before the
    loop leaves. *)
Module Double.
Record point : Type := mkPoint { x : float; y : float }.

Fixpoint lineLoop (fuel : nat) (model : float -> float)
  (lo stepSize steps i : float) (data : list point) : option (list point) :=
  match fuel with
  | O => Datatypes.None
  | S fuel' =>
      if PrimFloat.leb i steps then
        let x := PrimFloat.add lo (PrimFloat.mul i stepSize) in
        let y := model x in
        lineLoop fuel' model lo stepSize steps (PrimFloat.add i 1%float)
          (data ++ [mkPoint x y])
      else Some data
  end.

Definition getLineData (fuel : nat) (model : float -> float)
  (domain : float * float) (steps : float) : option (list point) :=
  let stepSize :=
    PrimFloat.div (PrimFloat.sub (snd domain) (fst domain)) steps in
  lineLoop fuel model (fst domain) stepSize steps 0%float [].

(** Each number of the list is smaller than the next one. *)
Fixpoint increasing (xs : list float) : bool :=
  match xs with
  | a :: (b :: _) as rest => PrimFloat.ltb a b && increasing rest
  | _ => true
  end.
End Double.

(* ================================================================== *)
(** ** Arithmetic of JavaScript numbers on finite values *)

Lemma Rleb_true (a b : R) : (a <= b)%R -> Rleb a b = true.
Proof. intros H; unfold Rleb; destruct (Rle_dec a b); [reflexivity | contradiction]. Qed.

Lemma Rleb_false (a b : R) : (b < a)%R -> Rleb a b = false.
Proof. intros H; unfold Rleb; destruct (Rle_dec a b); [lra | reflexivity]. Qed.

Lemma Rltb_true (a b : R) : (a < b)%R -> Rltb a b = true.
Proof. intros H; unfold Rltb; destruct (Rlt_dec a b); [reflexivity | contradiction]. Qed.

Lemma Rltb_false (a b : R) : (b <= a)%R -> Rltb a b = false.
Proof. intros H; unfold Rltb; destruct (Rlt_dec a b); [lra | reflexivity]. Qed.

Lemma Rltb_iff (a b : R) : Rltb a b = true <-> (a < b)%R.
Proof.
  unfold Rltb; destruct (Rlt_dec a b); split; intro; auto; discriminate.
Qed.

Lemma Reqb_refl (a : R) : Reqb a a = true.
Proof. unfold Reqb; destruct (Req_dec_T a a); [reflexivity | contradiction]. Qed.

Lemma div_Fin (r s : R) : s <> 0%R -> Fin r / Fin s = Fin (r / s).
Proof.
  intros H; unfold div; destruct (Req_dec_T s 0); [contradiction | reflexivity].
Qed.

Lemma div_zero_zero (r s : R) : r = 0%R -> s = 0%R -> Fin r / Fin s = NaN.
Proof.
  intros -> ->; unfold div, Rsign3.
  destruct (Req_dec_T 0 0) as [_ | H]; [| contradiction].
  destruct (total_order_T 0 0) as [[H | _] | H]; [lra | reflexivity | lra].
Qed.

Lemma sub_Fin (r s : R) : Fin r - Fin s = Fin (r - s).
Proof. reflexivity. Qed.

Lemma Rsign3_pos (r : R) : (0 < r)%R -> Rsign3 r = Pos.
Proof.
  intros H; unfold Rsign3.
  destruct (total_order_T r 0) as [[H0 | H0] | H0]; [lra | lra | reflexivity].
Qed.

Lemma Rsign3_neg (r : R) : (r < 0)%R -> Rsign3 r = Neg.
Proof.
  intros H; unfold Rsign3.
  destruct (total_order_T r 0) as [[H0 | H0] | H0]; [reflexivity | lra | lra].
Qed.

Lemma seedAfter_Fin (s : R) (k : nat) : seedAfter (Fin s) k = Fin (s + INR k).
Proof.
  induction k as [| k IH].
  - simpl. f_equal. lra.
  - unfold seedAfter in *. rewrite Nat.iter_succ, IH, S_INR. simpl. f_equal. lra.
Qed.

Lemma seedAfter_shift (seed : number) (k : nat) :
  seedAfter (seed + Fin 1) k = seedAfter seed (S k).
Proof.
  unfold seedAfter. rewrite Nat.iter_succ_r. reflexivity.
Qed.

(* ================================================================== *)
(** ** The loop of [generateTrainingData] *)

Lemma generateBody_eq (numPoints : nat) (noiseLevel : number) (i : nat)
  (seed : number) (data : list DataPoint.t) :
  generateBody numPoints noiseLevel (mkGen i seed data)
  = mkGen (S i) (seed + Fin 1) (data ++ [genPoint numPoints noiseLevel i seed]).
Proof. reflexivity. Qed.

Lemma generateLoop_points (fuel numPoints : nat) (noiseLevel : number) :
  forall (i : nat) (seed : number) (data : list DataPoint.t),
    (i + fuel <= numPoints)%nat ->
    generateLoop fuel numPoints noiseLevel (mkGen i seed data)
    = mkGen (i + fuel) (seedAfter seed fuel)
        (data ++ genPoints numPoints noiseLevel fuel i seed).
Proof.
  induction fuel as [| fuel IH]; intros i seed data Hle.
  - simpl. rewrite app_nil_r, Nat.add_0_r. reflexivity.
  - cbn [generateLoop gen_i].
    assert (Hlt : (i <? numPoints)%nat = true) by (apply Nat.ltb_lt; lia).
    rewrite Hlt, generateBody_eq, IH by lia.
    rewrite seedAfter_shift, <- app_assoc. cbn [genPoints app].
    f_equal. lia.
Qed.

Lemma generateTrainingData_points (numPoints : nat) (noiseLevel seed : number) :
  generateTrainingData numPoints noiseLevel seed
  = genPoints numPoints noiseLevel numPoints 0 seed.
Proof.
  unfold generateTrainingData.
  rewrite generateLoop_points by lia. reflexivity.
Qed.

Lemma genPoints_length (numPoints : nat) (noiseLevel : number) (fuel : nat) :
  forall i seed, List.length (genPoints numPoints noiseLevel fuel i seed) = fuel.
Proof.
  induction fuel as [| fuel IH]; intros i seed; simpl; [| rewrite IH]; reflexivity.
Qed.

Lemma genPoints_nth (numPoints : nat) (noiseLevel : number) (fuel : nat) :
  forall i seed k,
    (k < fuel)%nat ->
    nth_error (genPoints numPoints noiseLevel fuel i seed) k
    = Some (genPoint numPoints noiseLevel (i + k) (seedAfter seed k)).
Proof.
  induction fuel as [| fuel IH]; intros i seed k Hk; [lia |].
  destruct k as [| k]; cbn [genPoints nth_error].
  - rewrite Nat.add_0_r. reflexivity.
  - rewrite IH by lia. rewrite seedAfter_shift.
    replace (S i + k)%nat with (i + S k)%nat by lia. reflexivity.
Qed.

Lemma genPoints_xs (numPoints : nat) (noiseLevel : number) (fuel : nat) :
  forall i seed,
    map DataPoint.x (genPoints numPoints noiseLevel fuel i seed)
    = map (genX numPoints) (seq i fuel).
Proof.
  induction fuel as [| fuel IH]; intros i seed; [reflexivity |].
  cbn [genPoints map seq]. rewrite IH. reflexivity.
Qed.

Lemma genX_finite (numPoints i : nat) :
  (2 <= numPoints)%nat ->
  genX numPoints i = Fin (-2 + 4 * INR i / (INR numPoints - 1)).
Proof.
  intros Hn. unfold genX, of_nat.
  assert (H2 : (2 <= INR numPoints)%R) by (apply (le_INR 2); exact Hn).
  cbn [mul]. rewrite sub_Fin, div_Fin by lra. reflexivity.
Qed.

Lemma genX_one_zero : genX 1 0 = NaN.
Proof.
  unfold genX, of_nat. cbn [mul]. rewrite sub_Fin.
  rewrite div_zero_zero; simpl; [reflexivity | lra | lra].
Qed.

(** The samples [generateTrainingData] draws are those of consecutive calls
    of [pseudoRandom] from the seed. *)
Lemma pseudoRandomCalls_nth (n : nat) :
  forall seed k,
    (k < n)%nat ->
    nth_error (pseudoRandomCalls n seed) k
    = Some (fst (pseudoRandom (seedAfter seed k))).
Proof.
  induction n as [| n IH]; intros seed k Hk; [lia |].
  destruct k as [| k]; cbn [pseudoRandomCalls pseudoRandom nth_error].
  - reflexivity.
  - rewrite IH by lia. rewrite seedAfter_shift. reflexivity.
Qed.

Lemma pseudoRandom_Fin (s : R) :
  fst (pseudoRandom (Fin s))
  = Fin (frac_part (Rtrigo_def.sin s * 10000)).
Proof. reflexivity. Qed.

Lemma generateTrainingData_xs_formula (numPoints : nat)
  (noiseLevel seed : number) :
  (2 <= numPoints)%nat ->
  map DataPoint.x (generateTrainingData numPoints noiseLevel seed)
  = map (fun i => Fin (-2 + 4 * INR i / (INR numPoints - 1)))
      (seq 0 numPoints).
Proof.
  intros Hn. rewrite generateTrainingData_points, genPoints_xs.
  apply map_ext. intros i. apply genX_finite. exact Hn.
Qed.

(** C10.  For every [numPoints >= 2], noise level and seed, the training set
    of [generateTrainingData] has [numPoints] points; its x-coordinates are
    exactly [x_i = -2 + 4*i/(numPoints-1)] for [i] in [[0, numPoints-1]];
    the first is [-2] and the last is [2]; and they are the same for every
    other seed and noise level. *)
Theorem generateTrainingData_x_partition (numPoints : nat)
  (noiseLevel seed : number) :
  (2 <= numPoints)%nat ->
  let d := generateTrainingData numPoints noiseLevel seed in
  List.length d = numPoints
  /\ map DataPoint.x d
     = map (fun i => Fin (-2 + 4 * INR i / (INR numPoints - 1)))
         (seq 0 numPoints)
  /\ (forall i, (i < numPoints)%nat ->
        nth_error (map DataPoint.x d) i
        = Some (Fin (-2 + 4 * INR i / (INR numPoints - 1))))
  /\ nth_error (map DataPoint.x d) 0 = Some (Fin (-2))
  /\ nth_error (map DataPoint.x d) (numPoints - 1) = Some (Fin 2)
  /\ (forall noiseLevel' seed',
        map DataPoint.x (generateTrainingData numPoints noiseLevel' seed')
        = map DataPoint.x d).
Proof.
  intros Hn d.
  assert (Hxs := generateTrainingData_xs_formula numPoints noiseLevel seed Hn).
  fold d in Hxs.
  assert (Hnth : forall i, (i < numPoints)%nat ->
            nth_error (map DataPoint.x d) i
            = Some (Fin (-2 + 4 * INR i / (INR numPoints - 1)))).
  { intros i Hi. rewrite Hxs, nth_error_map, nth_error_seq.
    apply Nat.ltb_lt in Hi. rewrite Hi. reflexivity. }
  assert (H2 : (2 <= INR numPoints)%R) by (apply (le_INR 2); exact Hn).
  repeat split.
  - unfold d. rewrite generateTrainingData_points. apply genPoints_length.
  - exact Hxs.
  - exact Hnth.
  - rewrite Hnth by lia. do 2 f_equal. simpl. field. lra.
  - rewrite Hnth by lia. do 2 f_equal.
    rewrite minus_INR by lia. simpl. field. lra.
  - intros noiseLevel' seed'. rewrite Hxs.
    apply generateTrainingData_xs_formula. exact Hn.
Qed.

(** The instance of the reference scenario: [numPoints = 30]. *)
Lemma generateTrainingData_x_partition_30 :
  (2 <= 30)%nat
  /\ List.length (generateTrainingData 30 (Fin 0.5) (Fin 1)) = 30%nat
  /\ nth_error (map DataPoint.x (generateTrainingData 30 (Fin 0.5) (Fin 1))) 0
     = Some (Fin (-2))
  /\ nth_error (map DataPoint.x (generateTrainingData 30 (Fin 0.5) (Fin 1))) 29
     = Some (Fin 2).
Proof.
  assert (H : (2 <= 30)%nat) by lia.
  pose proof (generateTrainingData_x_partition 30 (Fin 0.5) (Fin 1) H)
    as (Hlen & _ & _ & Hfirst & Hlast & _).
  split; [exact H |]. split; [exact Hlen |]. split; [exact Hfirst | exact Hlast].
Defined.

(* ================================================================== *)
(** ** Calls of [generateTrainingData] on a store *)




(* ================================================================== *)
(** ** The noise generator *)

Lemma sin_1_bounds : (0.8414 < Rtrigo_def.sin 1 < 0.8415)%R.
Proof.
  assert (H1 : (1 <= Rtrigo1.PI)%R) by (pose proof PI2_1; lra).
  assert (H0 : (0 <= 1)%R) by lra.
  pose proof (SIN 1 H0 H1) as [Hl Hu].
  unfold sin_lb, sin_ub, sin_approx, sin_term in *.
  cbn [sum_f_R0 Nat.mul Nat.add] in Hl, Hu.
  repeat rewrite fact_simpl in Hl. repeat rewrite fact_simpl in Hu.
  repeat rewrite mult_INR in Hl. repeat rewrite mult_INR in Hu.
  cbn [fact INR pow] in Hl, Hu.
  split; lra.
Qed.

Lemma frac_part_sin_1 : frac_part (Rtrigo_def.sin 1 * 10000) <> 0%R.
Proof.
  unfold frac_part. intros H.
  pose proof sin_1_bounds as [Hl Hu].
  set (z := Int_part (Rtrigo_def.sin 1 * 10000)) in *.
  assert (Hz : (Rtrigo_def.sin 1 * 10000 = IZR z)%R) by lra.
  assert (H1 : (IZR 8414 < IZR z)%R) by lra.
  assert (H2 : (IZR z < IZR 8415)%R) by lra.
  apply lt_IZR in H1. apply lt_IZR in H2. lia.
Qed.

(** C2, as stated, fails: from seed [0] the first sample is
    [frac(sin(0) * 10000) = 0], not [frac(sin(0 + 1) * 10000)]. *)
Lemma pseudoRandom_first_sample_not_advanced :
  nth_error (pseudoRandomCalls 1 (Fin 0)) (1 - 1)
  <> Some (Fin (frac_part (Rtrigo_def.sin (0 + INR 1) * 10000))).
Proof.
  change (1 - 1)%nat with 0%nat.
  rewrite pseudoRandomCalls_nth by lia.
  change (seedAfter (Fin 0) 0) with (Fin 0).
  rewrite pseudoRandom_Fin. intros H. injection H as H.
  rewrite sin_0, Rmult_0_l, fp_R0 in H.
  apply frac_part_sin_1. symmetry.
  replace 1%R with (0 + 1)%R at 1 by lra. exact H.
Qed.

(** C2, amended.  For every starting seed [s] and every call index
    [k >= 1], the [k]-th sample of the noise generator is
    [frac(sin(s + k - 1) * 10000)]: the sine of the current seed is taken
    first and the seed is advanced by 1 afterwards, so the first sample uses
    [sin(s)]. *)
Theorem pseudoRandom_kth_sample (s : R) (n k : nat) :
  (1 <= k <= n)%nat ->
  nth_error (pseudoRandomCalls n (Fin s)) (k - 1)
  = Some (Fin (frac_part (Rtrigo_def.sin (s + INR k - 1) * 10000)))
  /\ pseudoRandom (Fin s)
     = (Fin (frac_part (Rtrigo_def.sin s * 10000)), Fin (s + 1)).
Proof.
  intros [Hk Hn]. split; [| reflexivity].
  rewrite pseudoRandomCalls_nth by lia.
  rewrite seedAfter_Fin, pseudoRandom_Fin.
  replace (s + INR (k - 1))%R with (s + INR k - 1)%R; [reflexivity |].
  rewrite minus_INR by lia. simpl. lra.
Qed.

Lemma pseudoRandom_kth_sample_witness :
  (1 <= 1 <= 3)%nat
  /\ nth_error (pseudoRandomCalls 3 (Fin 1)) (1 - 1)
     = Some (Fin (frac_part (Rtrigo_def.sin (1 + INR 1 - 1) * 10000))).
Proof.
  assert (H : (1 <= 1 <= 3)%nat) by lia.
  split; [exact H |].
  exact (proj1 (pseudoRandom_kth_sample 1 3 1 H)).
Defined.

(** The sample the loop of [generateTrainingData] draws for the point of
    index [i] is the one of the [(i+1)]-th call of [pseudoRandom]. *)
Lemma generateTrainingData_nth (numPoints : nat) (noiseLevel seed : number)
  (i : nat) :
  (i < numPoints)%nat ->
  nth_error (generateTrainingData numPoints noiseLevel seed) i
  = Some (genPoint numPoints noiseLevel i (seedAfter seed i)).
Proof.
  intros Hi. rewrite generateTrainingData_points, genPoints_nth by exact Hi.
  reflexivity.
Qed.

(* ================================================================== *)
(** ** The curve sampler [getLineData] *)

Lemma lineLoop_points (model : number -> number) (lo stepSize : number)
  (fuel : nat) :
  forall i data,
    lineLoop fuel model lo stepSize i data
    = data ++ map (linePoint model lo stepSize) (seq i fuel).
Proof.
  induction fuel as [| fuel IH]; intros i data.
  - simpl. rewrite app_nil_r. reflexivity.
  - cbn [lineLoop seq map]. rewrite IH, <- app_assoc. reflexivity.
Qed.

Lemma getLineData_points (model : number -> number) (lo hi : number)
  (steps : nat) :
  getLineData model (lo, hi) steps
  = map (linePoint model lo ((hi - lo) / of_nat steps)) (seq 0 (S steps)).
Proof.
  unfold getLineData. cbn [fst snd]. rewrite lineLoop_points. reflexivity.
Qed.

Lemma linePoint_finite (model : number -> number) (lo hi : R)
  (steps i : nat) :
  (1 <= steps)%nat ->
  linePoint model (Fin lo) ((Fin hi - Fin lo) / of_nat steps) i
  = DataPoint.mk (Fin (lo + INR i * ((hi - lo) / INR steps)))
      (model (Fin (lo + INR i * ((hi - lo) / INR steps)))).
Proof.
  intros Hs. unfold linePoint, of_nat.
  assert (H1 : (1 <= INR steps)%R) by (apply (le_INR 1); exact Hs).
  rewrite sub_Fin, div_Fin by lra. reflexivity.
Qed.

Lemma StronglySorted_map_seq (A : Type) (rel : A -> A -> Prop)
  (g : nat -> A) :
  (forall a b, (a < b)%nat -> rel (g a) (g b)) ->
  forall n i, StronglySorted rel (map g (seq i n)).
Proof.
  intros Hg. induction n as [| n IH]; intros i; cbn [seq map].
  - constructor.
  - constructor; [apply IH |].
    apply Forall_forall. intros q Hq.
    apply in_map_iff in Hq. destruct Hq as (j & <- & Hj).
    apply in_seq in Hj. apply Hg. lia.
Qed.

Lemma Double_lineLoop_model (g : float -> float) (lo stepSize steps : float)
  (fuel : nat) :
  forall (i : float) (data : list Double.point),
    Double.lineLoop fuel g lo stepSize steps i
      (map (fun p => Double.mkPoint (Double.x p) (g (Double.x p))) data)
    = option_map
        (map (fun p => Double.mkPoint (Double.x p) (g (Double.x p))))
        (Double.lineLoop fuel (fun v => v) lo stepSize steps i data).
Proof.
  induction fuel as [| fuel IH]; intros i data; [reflexivity |].
  cbn [Double.lineLoop]. destruct (PrimFloat.leb i steps); [| reflexivity].
  cbv zeta. rewrite <- IH, map_app. reflexivity.
Qed.

Lemma Double_getLineData_model (g : float -> float) (domain : float * float)
  (steps : float) (fuel : nat) :
  Double.getLineData fuel g domain steps
  = option_map
      (map (fun p => Double.mkPoint (Double.x p) (g (Double.x p))))
      (Double.getLineData fuel (fun v => v) domain steps).
Proof.
  unfold Double.getLineData. cbv zeta.
  rewrite <- Double_lineLoop_model. reflexivity.
Qed.

(** C9, as stated, fails.  On a domain reduced to one point the two
    x-values of [getLineData(f, [0, 0], 1)] are both [0].  In the doubles of
    the source, [getLineData(f, [0, 1], 49)] returns 50 points whose last x
    is not [1] (it is [0.9999999999999999]), and on the domain
    [[1e16, 1e16 + 2]] with 4 steps, where [lo < hi], the x-values repeat. *)
Lemma getLineData_counterexamples :
  ((1 <= 1)%nat
   /\ ~ xStrictlyIncreasing (getLineData (fun v => v) (Fin 0, Fin 0) 1))
  /\ option_map
       (fun pts => (List.length pts,
                    PrimFloat.eqb (last (map Double.x pts) 0%float) 1%float))
       (Double.getLineData 60 (fun v => v) (0%float, 1%float) 49%float)
     = Some (50%nat, false)
  /\ PrimFloat.ltb 1e16%float 10000000000000002%float = true
  /\ option_map
       (fun pts => (List.length pts, Double.increasing (map Double.x pts)))
       (Double.getLineData 10 (fun v => v)
          (1e16%float, 10000000000000002%float) 4%float)
     = Some (5%nat, false).
Proof.
  split; [split; [lia |] | split; [| split]].
  - rewrite getLineData_points. cbn [seq map].
    rewrite !linePoint_finite by lia.
    intros H. apply StronglySorted_inv in H. destruct H as [_ H].
    apply Forall_inv in H. cbn [DataPoint.x ltb] in H.
    apply Rltb_iff in H. simpl in H. lra.
  - vm_compute. reflexivity.
  - vm_compute. reflexivity.
  - vm_compute. reflexivity.
Qed.

(** C9, amended.  For every scalar function [f], domain [[lo, hi]] and step
    count [steps >= 1], [getLineData] returns exactly [steps + 1] points,
    the point of index [i] being [(x_i, f(x_i))] with
    [x_i = lo + i * ((hi - lo) / steps)]; in exact arithmetic (no rounding)
    the first x is [lo], the last x is [hi] and the x-values increase
    strictly when [lo < hi].  In the doubles of the source,
    [getLineData(g, [-2, 2], 100)] returns 101 points with strictly
    increasing x, the first exactly [-2] and the last exactly [2], and
    [y = g(x)] at each point. *)
Theorem getLineData_samples_exact_and_double (f : number -> number)
  (lo hi : R) (steps : nat) (g : float -> float) :
  (1 <= steps)%nat ->
  (let pts := getLineData f (Fin lo, Fin hi) steps in
   List.length pts = (steps + 1)%nat
   /\ (forall i, (i <= steps)%nat ->
         nth_error pts i
         = Some (DataPoint.mk (Fin (lo + INR i * ((hi - lo) / INR steps)))
                   (f (Fin (lo + INR i * ((hi - lo) / INR steps))))))
   /\ nth_error (map DataPoint.x pts) 0 = Some (Fin lo)
   /\ nth_error (map DataPoint.x pts) steps = Some (Fin hi)
   /\ (forall p, In p pts -> DataPoint.y p = f (DataPoint.x p))
   /\ ((lo < hi)%R -> xStrictlyIncreasing pts))
  /\ (exists pts : list Double.point,
        Double.getLineData 102 g ((-2)%float, 2%float) 100%float = Some pts
        /\ List.length pts = 101%nat
        /\ nth_error (map Double.x pts) 0 = Some (-2)%float
        /\ nth_error (map Double.x pts) 100 = Some 2%float
        /\ Double.increasing (map Double.x pts) = true
        /\ Forall (fun p => Double.y p = g (Double.x p)) pts).
Proof.
  intros Hs. split.
  { intros pts.
    assert (H1 : (1 <= INR steps)%R) by (apply (le_INR 1); exact Hs).
    assert (Hpts : pts = map (fun i =>
               DataPoint.mk (Fin (lo + INR i * ((hi - lo) / INR steps)))
                 (f (Fin (lo + INR i * ((hi - lo) / INR steps)))))
               (seq 0 (S steps))).
    { unfold pts. rewrite getLineData_points. apply map_ext.
      intros i. apply linePoint_finite. exact Hs. }
    assert (Hnth : forall i, (i <= steps)%nat ->
              nth_error pts i
              = Some (DataPoint.mk (Fin (lo + INR i * ((hi - lo) / INR steps)))
                        (f (Fin (lo + INR i * ((hi - lo) / INR steps)))))).
    { intros i Hi. rewrite Hpts, nth_error_map, nth_error_seq.
      assert (Hlt : (i <? S steps)%nat = true) by (apply Nat.ltb_lt; lia).
      rewrite Hlt. reflexivity. }
    split; [| split; [exact Hnth | split; [| split; [| split]]]].
    - rewrite Hpts, length_map, length_seq. lia.
    - rewrite nth_error_map, Hnth by lia. cbn [option_map DataPoint.x].
      do 2 f_equal. simpl. lra.
    - rewrite nth_error_map, Hnth by lia. cbn [option_map DataPoint.x].
      do 2 f_equal. field. lra.
    - intros p Hp. rewrite Hpts in Hp. apply in_map_iff in Hp.
      destruct Hp as (i & <- & _). reflexivity.
    - intros Hlohi. rewrite Hpts. apply StronglySorted_map_seq.
      intros a b Hab. cbn [DataPoint.x ltb]. apply Rltb_iff.
      apply lt_INR in Hab.
      assert (Hd : (0 < (hi - lo) / INR steps)%R)
        by (apply Rdiv_lt_0_compat; lra).
      nra. }
  rewrite Double_getLineData_model.
  remember (Double.getLineData 102 (fun v => v) ((-2)%float, 2%float)
              100%float) as run eqn:Hrun.
  vm_compute in Hrun. subst run. cbn [option_map].
  eexists. split; [reflexivity |].
  split; [vm_compute; reflexivity |].
  split; [vm_compute; reflexivity |].
  split; [vm_compute; reflexivity |].
  split; [vm_compute; reflexivity |].
  cbn [map Double.x]. repeat (constructor; [reflexivity |]). constructor.
Qed.

(** The two curves of the playground: [getLineData(f, [-2, 2], 100)] returns
    101 points, from [-2] to [2], with strictly increasing x. *)
Lemma getLineData_samples_100 :
  (1 <= 100)%nat
  /\ (-2 < 2)%R
  /\ List.length (getLineData trueFunction (Fin (-2), Fin 2) 100) = 101%nat
  /\ nth_error (map DataPoint.x (getLineData trueFunction (Fin (-2), Fin 2) 100)) 0
     = Some (Fin (-2))
  /\ nth_error (map DataPoint.x (getLineData trueFunction (Fin (-2), Fin 2) 100)) 100
     = Some (Fin 2)
  /\ xStrictlyIncreasing (getLineData trueFunction (Fin (-2), Fin 2) 100).
Proof.
  assert (Hs : (1 <= 100)%nat) by lia.
  assert (Hd : (-2 < 2)%R) by lra.
  pose proof (proj1 (getLineData_samples_exact_and_double trueFunction (-2) 2
                       100 (fun v => v) Hs))
    as (Hlen & _ & Hfirst & Hlast & _ & Hinc).
  split; [exact Hs |]. split; [exact Hd |].
  split; [exact Hlen |]. split; [exact Hfirst |]. split; [exact Hlast |].
  exact (Hinc Hd).
Defined.

(* ================================================================== *)
(** ** The sums of the underfitting case *)

Lemma sigma_cons (f : R * R -> R) (p : R * R) (l : list (R * R)) :
  sigma f (p :: l) = (f p + sigma f l)%R.
Proof. reflexivity. Qed.

Lemma sigma_nil (f : R * R -> R) : sigma f [] = 0%R.
Proof. reflexivity. Qed.

Lemma fold_accumulate_finite (l : list (R * R)) :
  forall a b c d : R,
    fold_left accumulate (finiteData l) (mkSums (Fin a) (Fin b) (Fin c) (Fin d))
    = mkSums (Fin (a + sigmaX l)) (Fin (b + sigmaY l))
        (Fin (c + sigmaXY l)) (Fin (d + sigmaX2 l)).
Proof.
  induction l as [| p l IH]; intros a b c d.
  - cbn. f_equal; f_equal; lra.
  - cbn [finiteData map fold_left]. fold (finiteData l).
    unfold accumulate at 2. cbn [pointOf DataPoint.x DataPoint.y sumX sumY sumXY sumX2 add mul].
    rewrite IH.
    unfold sigmaX, sigmaY, sigmaXY, sigmaX2. rewrite !sigma_cons. cbv beta.
    f_equal; f_equal; lra.
Qed.

Lemma dataSums_finite (l : list (R * R)) :
  dataSums (finiteData l)
  = mkSums (Fin (sigmaX l)) (Fin (sigmaY l)) (Fin (sigmaXY l)) (Fin (sigmaX2 l)).
Proof.
  unfold dataSums. rewrite fold_accumulate_finite.
  f_equal; f_equal; lra.
Qed.

Lemma finiteData_length (l : list (R * R)) :
  List.length (finiteData l) = List.length l.
Proof. apply length_map. Qed.

Lemma slope_numerator_denominator (l : list (R * R)) :
  slope (finiteData l)
  = Fin (INR (List.length l) * sigmaXY l - sigmaX l * sigmaY l)
    / Fin (olsDenominator l).
Proof.
  unfold slope. rewrite dataSums_finite, finiteData_length. reflexivity.
Qed.

Lemma slope_finite (l : list (R * R)) :
  olsDenominator l <> 0%R ->
  slope (finiteData l) = Fin (olsSlope l).
Proof.
  intros Hd. rewrite slope_numerator_denominator, div_Fin by exact Hd.
  reflexivity.
Qed.

Lemma intercept_finite (l : list (R * R)) :
  olsDenominator l <> 0%R ->
  INR (List.length l) <> 0%R ->
  intercept (finiteData l) = Fin (olsIntercept l).
Proof.
  intros Hd Hn. unfold intercept.
  rewrite slope_finite by exact Hd.
  rewrite dataSums_finite, finiteData_length.
  unfold of_nat. cbn [sumX sumY mul]. rewrite sub_Fin, div_Fin by exact Hn.
  reflexivity.
Qed.

(** *** The denominator is positive unless all x-values coincide *)

Lemma sqDist_expand (a : R) (l : list (R * R)) :
  sqDist a l
  = (sigmaX2 l - 2 * a * sigmaX l + INR (List.length l) * (a * a))%R.
Proof.
  unfold sqDist, sigmaX2, sigmaX.
  induction l as [| p l IH].
  - rewrite !sigma_nil. simpl. lra.
  - rewrite !sigma_cons. cbv beta. cbn [List.length]. rewrite S_INR, IH. lra.
Qed.

Lemma sqDist_nonneg (a : R) (l : list (R * R)) : (0 <= sqDist a l)%R.
Proof.
  unfold sqDist. induction l as [| p l IH].
  - rewrite sigma_nil. lra.
  - rewrite sigma_cons. cbv beta.
    pose proof (Rle_0_sqr (fst p - a)) as Hsq. unfold Rsqr in Hsq. lra.
Qed.

Lemma sqDist_pos (a : R) (l : list (R * R)) (q : R * R) :
  In q l -> fst q <> a -> (0 < sqDist a l)%R.
Proof.
  intros Hin Hne. induction l as [| p l IH]; [contradiction |].
  unfold sqDist. rewrite sigma_cons. cbv beta. fold (sqDist a l).
  pose proof (sqDist_nonneg a l) as Hl.
  destruct Hin as [-> | Hin].
  - assert (Hq : (fst q - a <> 0)%R) by lra.
    pose proof (Rlt_0_sqr _ Hq) as Hsq. unfold Rsqr in Hsq. lra.
  - specialize (IH Hin). unfold sqDist in IH. fold (sqDist a l) in IH.
    pose proof (Rle_0_sqr (fst p - a)) as Hsq. unfold Rsqr in Hsq. lra.
Qed.

Lemma olsDenominator_cons (p : R * R) (l : list (R * R)) :
  olsDenominator (p :: l) = (olsDenominator l + sqDist (fst p) l)%R.
Proof.
  rewrite sqDist_expand. unfold olsDenominator, sigmaX2, sigmaX.
  rewrite !sigma_cons. cbv beta. cbn [List.length]. rewrite S_INR. lra.
Qed.

Lemma olsDenominator_nonneg (l : list (R * R)) : (0 <= olsDenominator l)%R.
Proof.
  induction l as [| p l IH].
  - unfold olsDenominator, sigmaX2, sigmaX. rewrite !sigma_nil. simpl. lra.
  - rewrite olsDenominator_cons. pose proof (sqDist_nonneg (fst p) l). lra.
Qed.

Lemma olsDenominator_pos (l : list (R * R)) :
  twoDistinctX l -> (0 < olsDenominator l)%R.
Proof.
  induction l as [| p l IH]; intros (p0 & q0 & Hp & Hq & Hne).
  - contradiction.
  - rewrite olsDenominator_cons.
    pose proof (olsDenominator_nonneg l) as Hd.
    pose proof (sqDist_nonneg (fst p) l) as Hs.
    destruct Hp as [<- | Hp], Hq as [<- | Hq].
    + contradiction.
    + assert (0 < sqDist (fst p) l)%R
        by (apply (sqDist_pos _ _ q0); [exact Hq | congruence]).
      lra.
    + assert (0 < sqDist (fst p) l)%R
        by (apply (sqDist_pos _ _ p0); [exact Hp | congruence]).
      lra.
    + assert (0 < olsDenominator l)%R
        by (apply IH; exists p0, q0; auto).
      lra.
Qed.

Lemma twoDistinctX_length (l : list (R * R)) :
  twoDistinctX l -> (0 < INR (List.length l))%R.
Proof.
  intros (p & q & Hp & _ & _). destruct l as [| p0 l]; [contradiction |].
  apply (lt_INR 0). simpl. lia.
Qed.

(* ================================================================== *)
(** ** [calculateModelFunction]: the two branches *)

Lemma gtb_one_not_leb (complexity : number) :
  (complexity >? Fin 1) = true -> (complexity <=? Fin 1) = false.
Proof.
  destruct complexity as [c | | |]; cbn [gtb ltb leb]; intros H;
    try discriminate; try reflexivity.
  apply Rltb_iff in H. apply Rleb_false. exact H.
Qed.

Lemma calculateModelFunction_underfit_eq (data : list DataPoint.t)
  (complexity : number) (regType : RegularizationType.t)
  (regStrength noise : number) :
  (complexity <=? Fin 1) = true ->
  calculateModelFunction data complexity regType regStrength noise
  = mkFitted (fun x => slope data * x + intercept data) underfittingText.
Proof.
  intros H. unfold calculateModelFunction. rewrite H. reflexivity.
Qed.

Lemma calculateModelFunction_overfit_model (data : list DataPoint.t)
  (complexity : number) (regType : RegularizationType.t)
  (regStrength noise : number) :
  (complexity <=? Fin 1) = false ->
  model (calculateModelFunction data complexity regType regStrength noise)
  = model (switchRegType complexity regType regStrength noise).
Proof.
  intros H. unfold calculateModelFunction. rewrite H.
  destruct ((regStrength >? Fin 0)
            && negb (RegularizationType.eqb regType RegularizationType.None));
    [destruct (complexity <=? Fin 5) |]; reflexivity.
Qed.

Lemma calculateModelFunction_overfit_data (data1 data2 : list DataPoint.t)
  (complexity : number) (regType : RegularizationType.t)
  (regStrength noise : number) :
  (complexity <=? Fin 1) = false ->
  calculateModelFunction data1 complexity regType regStrength noise
  = calculateModelFunction data2 complexity regType regStrength noise.
Proof.
  intros H. unfold calculateModelFunction. rewrite H. reflexivity.
Qed.

(** C8.  For every training set with at least two distinct x-values,
    [calculateModelFunction] with [complexity <= 1] returns the affine
    function [x -> m*x + b] whose slope and intercept are those of the
    normal equations, [m = (n*sum(xy) - sum(x)*sum(y)) / (n*sum(x^2) -
    sum(x)^2)] and [b = (sum(y) - m*sum(x)) / n] (neither division is by
    zero), together with the underfitting description. *)
Theorem calculateModelFunction_least_squares (l : list (R * R))
  (complexity : number) (regType : RegularizationType.t)
  (regStrength noise : number) :
  twoDistinctX l ->
  (complexity <=? Fin 1) = true ->
  let fit :=
    calculateModelFunction (finiteData l) complexity regType regStrength noise
  in
  olsDenominator l <> 0%R
  /\ INR (List.length l) <> 0%R
  /\ fit = mkFitted (fun x => Fin (olsSlope l) * x + Fin (olsIntercept l))
             underfittingText
  /\ (forall x : R,
        model fit (Fin x) = Fin (olsSlope l * x + olsIntercept l))
  /\ description fit = underfittingText.
Proof.
  intros Hx Hc fit.
  assert (Hd : olsDenominator l <> 0%R)
    by (pose proof (olsDenominator_pos l Hx); lra).
  assert (Hn : INR (List.length l) <> 0%R)
    by (pose proof (twoDistinctX_length l Hx); lra).
  assert (Hfit : fit = mkFitted
            (fun x => Fin (olsSlope l) * x + Fin (olsIntercept l))
            underfittingText).
  { unfold fit. rewrite calculateModelFunction_underfit_eq by exact Hc.
    rewrite slope_finite, intercept_finite by assumption. reflexivity. }
  split; [exact Hd |]. split; [exact Hn |]. split; [exact Hfit |].
  rewrite Hfit. split; [intros x |]; reflexivity.
Qed.

Lemma calculateModelFunction_least_squares_witness :
  twoDistinctX [(0, 0); (1, 1)]%R
  /\ (Fin 1 <=? Fin 1) = true
  /\ description
       (calculateModelFunction (finiteData [(0, 0); (1, 1)]%R) (Fin 1)
          RegularizationType.None (Fin 0) (Fin 0.5))
     = underfittingText.
Proof.
  assert (Hx : twoDistinctX [(0, 0); (1, 1)]%R).
  { exists (0, 0)%R, (1, 1)%R.
    split; [left; reflexivity |].
    split; [right; left; reflexivity | simpl; lra]. }
  assert (Hc : (Fin 1 <=? Fin 1) = true) by (apply Rleb_true; lra).
  split; [exact Hx |]. split; [exact Hc |].
  exact (proj2 (proj2 (proj2 (proj2
    (calculateModelFunction_least_squares [(0, 0); (1, 1)]%R (Fin 1)
       RegularizationType.None (Fin 0) (Fin 0.5) Hx Hc))))).
Defined.

(** In the underfitting case the training set decides the result: two
    training sets on the same x-values give different lines. *)
Lemma calculateModelFunction_underfit_reads_data
  (regType : RegularizationType.t) (regStrength noise : number) :
  model (calculateModelFunction (finiteData [(0, 0); (1, 0)]%R) (Fin 1)
           regType regStrength noise) (Fin 1)
  <> model (calculateModelFunction (finiteData [(0, 0); (1, 1)]%R) (Fin 1)
              regType regStrength noise) (Fin 1).
Proof.
  assert (Hc : (Fin 1 <=? Fin 1) = true) by (apply Rleb_true; lra).
  assert (Hx0 : twoDistinctX [(0, 0); (1, 0)]%R).
  { exists (0, 0)%R, (1, 0)%R.
    split; [left; reflexivity |].
    split; [right; left; reflexivity | simpl; lra]. }
  assert (Hx1 : twoDistinctX [(0, 0); (1, 1)]%R).
  { exists (0, 0)%R, (1, 1)%R.
    split; [left; reflexivity |].
    split; [right; left; reflexivity | simpl; lra]. }
  rewrite !calculateModelFunction_underfit_eq by exact Hc.
  cbn [model].
  rewrite !slope_finite, !intercept_finite
    by (try apply Rgt_not_eq; try apply olsDenominator_pos;
        try apply twoDistinctX_length; assumption).
  cbn [mul add]. intros H. injection H as H. revert H.
  unfold olsIntercept, olsSlope, olsDenominator, sigmaX, sigmaY, sigmaXY,
    sigmaX2.
  rewrite !sigma_cons, !sigma_nil. cbv beta. cbn [fst snd List.length INR].
  intros H. field_simplify in H. lra.
Qed.

(** C4.  For every [complexity > 1] and fixed complexity, regularization
    kind, strength and noise level, the result of [calculateModelFunction]
    does not depend on the training set: any two training sets give
    pointwise-equal fitted functions and equal descriptions.  The training
    set decides the result only when [complexity <= 1], where two training
    sets can give different fitted functions. *)
Theorem calculateModelFunction_overfit_ignores_data
  (data1 data2 : list DataPoint.t) (complexity : number)
  (regType : RegularizationType.t) (regStrength noise : number) :
  (complexity >? Fin 1) = true ->
  (forall x,
      model (calculateModelFunction data1 complexity regType regStrength noise) x
      = model (calculateModelFunction data2 complexity regType regStrength noise) x)
  /\ description
       (calculateModelFunction data1 complexity regType regStrength noise)
     = description
         (calculateModelFunction data2 complexity regType regStrength noise)
  /\ (exists d1 d2 x,
        model (calculateModelFunction d1 (Fin 1) regType regStrength noise) x
        <> model (calculateModelFunction d2 (Fin 1) regType regStrength noise) x).
Proof.
  intros Hc. apply gtb_one_not_leb in Hc.
  rewrite (calculateModelFunction_overfit_data data1 data2) by exact Hc.
  split; [reflexivity |]. split; [reflexivity |].
  exists (finiteData [(0, 0); (1, 0)]%R), (finiteData [(0, 0); (1, 1)]%R), (Fin 1).
  apply calculateModelFunction_underfit_reads_data.
Qed.

Lemma calculateModelFunction_overfit_ignores_data_witness :
  (Fin 10 >? Fin 1) = true
  /\ description
       (calculateModelFunction [] (Fin 10) RegularizationType.L2 (Fin 2)
          (Fin 0.5))
     = description
         (calculateModelFunction (finiteData [(0, 0); (1, 1)]%R) (Fin 10)
            RegularizationType.L2 (Fin 2) (Fin 0.5)).
Proof.
  assert (Hc : (Fin 10 >? Fin 1) = true) by (apply Rltb_true; lra).
  split; [exact Hc |].
  exact (proj1 (proj2
    (calculateModelFunction_overfit_ignores_data []
       (finiteData [(0, 0); (1, 1)]%R) (Fin 10) RegularizationType.L2
       (Fin 2) (Fin 0.5) Hc))).
Defined.

(* ================================================================== *)
(** ** The regularized wiggles *)

Lemma wiggle_finite (noise complexity x : R) :
  wiggle (Fin noise) (Fin complexity) (Fin x)
  = Fin (noise * 0.7 * Rtrigo_def.sin (x * Rtrigo1.PI * complexity / 2)).
Proof.
  unfold wiggle, Js.PI. cbn [mul]. rewrite div_Fin by lra. reflexivity.
Qed.

Lemma trueFunction_finite (x : R) :
  trueFunction (Fin x) = Fin (Rtrigo_def.sin (x * Rtrigo1.PI / 2)).
Proof.
  unfold trueFunction, Js.PI. cbn [mul Js.sin]. do 2 f_equal. lra.
Qed.

Lemma sign_finite (w : R) :
  exists k : R, Js.sign (Fin w) = Fin k /\ (k * Rabs w = w)%R.
Proof.
  unfold Js.sign, Rsign3.
  destruct (total_order_T w 0) as [[H | H] | H].
  - exists (-1)%R. split; [reflexivity |]. rewrite Rabs_left by lra. lra.
  - exists 0%R. split; [reflexivity |]. subst w. rewrite Rabs_R0. lra.
  - exists 1%R. split; [reflexivity |]. rewrite Rabs_right by lra. lra.
Qed.

(** With strength zero the L1 threshold leaves every wiggle as it is. *)
Lemma regularizedWiggleL1_zero (w : number) :
  regularizedWiggleL1 (Fin 0) w = w.
Proof.
  unfold regularizedWiggleL1. destruct w as [r | | |].
  - destruct (sign_finite r) as (k & -> & Hk).
    cbn [Js.abs mul sub add neg Js.max]. f_equal.
    replace (Rabs r + - (0 * 0.05))%R with (Rabs r) by lra.
    rewrite Rmax_right by apply Rabs_pos. exact Hk.
  - cbn. rewrite Rsign3_pos by lra. reflexivity.
  - cbn. rewrite Rsign3_neg by lra. reflexivity.
  - reflexivity.
Qed.

(** With strength zero the L2 factor is 1. *)
Lemma regularizedWiggleL2_zero (w : number) :
  regularizedWiggleL2 (Fin 0) w = w.
Proof.
  unfold regularizedWiggleL2. cbn [mul add].
  destruct w as [r | | |].
  - rewrite div_Fin by lra. f_equal. field.
  - cbn [div]. rewrite Rltb_false by lra. reflexivity.
  - cbn [div]. rewrite Rltb_false by lra. reflexivity.
  - reflexivity.
Qed.

(** With strength zero the three model closures are the same function. *)
Lemma zero_strength_same_function (noise complexity x : number) :
  modelL1 noise complexity (Fin 0) x = baseOverfitModel noise complexity x
  /\ modelL2 noise complexity (Fin 0) x = baseOverfitModel noise complexity x.
Proof.
  unfold modelL1, modelL2, baseOverfitModel. cbv zeta.
  rewrite regularizedWiggleL1_zero, regularizedWiggleL2_zero. split; reflexivity.
Qed.

(* ================================================================== *)
(** ** Strength zero against no regularization *)

Lemma zero_strength_no_suffix (complexity : number)
  (regType : RegularizationType.t) (noise : number) (data : list DataPoint.t) :
  (complexity <=? Fin 1) = false ->
  calculateModelFunction data complexity regType (Fin 0) noise
  = switchRegType complexity regType (Fin 0) noise.
Proof.
  intros H. unfold calculateModelFunction. rewrite H.
  assert (H0 : (Fin 0 >? Fin 0) = false) by (apply Rltb_false; lra).
  rewrite H0. reflexivity.
Qed.

(** With strength zero, the fitted function of every kind is the one of
    kind [None], at every [complexity > 1]. *)
Lemma zero_strength_model (data : list DataPoint.t) (complexity : number)
  (regType : RegularizationType.t) (noise x : number) :
  (complexity >? Fin 1) = true ->
  model (calculateModelFunction data complexity regType (Fin 0) noise) x
  = model (calculateModelFunction data complexity RegularizationType.None
             (Fin 0) noise) x.
Proof.
  intros Hc. apply gtb_one_not_leb in Hc.
  rewrite !zero_strength_no_suffix by exact Hc.
  destruct regType; cbn [switchRegType model]; try reflexivity;
    apply zero_strength_same_function.
Qed.

(** With strength zero, the description of every kind is the one of kind
    [None] when [complexity > 5]: the overfitting text. *)
Lemma zero_strength_description_high (data : list DataPoint.t)
  (complexity : number) (regType : RegularizationType.t) (noise : number) :
  (complexity >? Fin 5) = true ->
  description (calculateModelFunction data complexity regType (Fin 0) noise)
  = description (calculateModelFunction data complexity
                   RegularizationType.None (Fin 0) noise)
  /\ description (calculateModelFunction data complexity regType (Fin 0) noise)
     = overfittingText.
Proof.
  intros H5.
  assert (Hc : (complexity <=? Fin 1) = false).
  { destruct complexity as [c | | |]; cbn [gtb ltb leb] in *;
      try discriminate; try reflexivity.
    apply Rltb_iff in H5. apply Rleb_false. lra. }
  rewrite !zero_strength_no_suffix by exact Hc.
  assert (H0 : (Fin 0 === Fin 0) = true) by apply Reqb_refl.
  destruct regType; cbn [switchRegType description]; rewrite ?H0, ?H5;
    split; reflexivity.
Qed.

(** C1, at a complexity between 1 and 5.  With [complexity = 3] and
    [regStrength = 0], kinds L1 and L2 give the overfitting description,
    where kind [None] gives the good-fit description on the same inputs:
    the descriptions differ. *)
Theorem zero_strength_description_low_complexity (data : list DataPoint.t)
  (noise : number) :
  description (calculateModelFunction data (Fin 3) RegularizationType.L1
                 (Fin 0) noise) = overfittingText
  /\ description (calculateModelFunction data (Fin 3) RegularizationType.L2
                    (Fin 0) noise) = overfittingText
  /\ description (calculateModelFunction data (Fin 3) RegularizationType.None
                    (Fin 0) noise) = goodFitText
  /\ description (calculateModelFunction data (Fin 3) RegularizationType.L1
                    (Fin 0) noise)
     <> description (calculateModelFunction data (Fin 3)
                       RegularizationType.None (Fin 0) noise).
Proof.
  assert (Hc : (Fin 3 <=? Fin 1) = false) by (apply Rleb_false; lra).
  assert (H0 : (Fin 0 === Fin 0) = true) by apply Reqb_refl.
  assert (H5 : (Fin 3 >? Fin 5) = false) by (apply Rltb_false; lra).
  rewrite !zero_strength_no_suffix by exact Hc.
  cbn [switchRegType description]. rewrite H0, H5.
  repeat split. unfold overfittingText, goodFitText. discriminate.
Qed.

(* ================================================================== *)
(** ** L1: full shrinkage *)

Lemma wiggle_abs_bound (noise complexity x : R) :
  (Rabs (noise * 0.7 * Rtrigo_def.sin (x * Rtrigo1.PI * complexity / 2))
   <= Rabs noise * 0.7)%R.
Proof.
  rewrite !Rabs_mult.
  pose proof (SIN_bound (x * Rtrigo1.PI * complexity / 2)) as [Hl Hu].
  assert (Hs : (Rabs (Rtrigo_def.sin (x * Rtrigo1.PI * complexity / 2)) <= 1)%R)
    by (apply Rabs_le; lra).
  rewrite (Rabs_right 0.7) by lra.
  pose proof (Rabs_pos noise) as Hn.
  pose proof (Rabs_pos (Rtrigo_def.sin (x * Rtrigo1.PI * complexity / 2))) as Hp.
  nra.
Qed.

Lemma regularizedWiggleL1_full (regStrength w : R) :
  (Rabs w <= regStrength * 0.05)%R ->
  regularizedWiggleL1 (Fin regStrength) (Fin w) = Fin 0.
Proof.
  intros H. unfold regularizedWiggleL1.
  destruct (sign_finite w) as (k & -> & _).
  cbn [Js.abs mul sub add neg Js.max]. f_equal.
  rewrite Rmax_left by lra. lra.
Qed.

(** C6.  For every training set, [complexity > 1] and noise level,
    [calculateModelFunction] with kind L1 and a strength such that
    [regStrength*0.05] is at least the maximum absolute wiggle amplitude
    ([|noiseLevel|*0.7], which is [noiseLevel*0.7] for the non-negative
    noise levels of the data model) returns a fitted function equal to the
    ground truth [sin(x*pi/2)] at every [x]. *)
Theorem l1_full_shrinkage (data : list DataPoint.t)
  (complexity regStrength noise x : R) :
  (1 < complexity)%R ->
  (Rabs noise * 0.7 <= regStrength * 0.05)%R ->
  model (calculateModelFunction data (Fin complexity) RegularizationType.L1
           (Fin regStrength) (Fin noise)) (Fin x)
  = trueFunction (Fin x)
  /\ trueFunction (Fin x) = Fin (Rtrigo_def.sin (x * Rtrigo1.PI / 2)).
Proof.
  intros Hc Hs. split; [| apply trueFunction_finite].
  assert (Hleb : (Fin complexity <=? Fin 1) = false)
    by (apply Rleb_false; exact Hc).
  rewrite calculateModelFunction_overfit_model by exact Hleb.
  cbn [switchRegType model]. unfold modelL1. cbv zeta.
  rewrite wiggle_finite, regularizedWiggleL1_full.
  - rewrite trueFunction_finite. cbn [add]. f_equal. lra.
  - pose proof (wiggle_abs_bound noise complexity x). lra.
Qed.

Lemma l1_full_shrinkage_witness :
  (1 < 10)%R
  /\ (Rabs 0.5 * 0.7 <= 7 * 0.05)%R
  /\ model (calculateModelFunction [] (Fin 10) RegularizationType.L1
              (Fin 7) (Fin 0.5)) (Fin 1)
     = trueFunction (Fin 1).
Proof.
  assert (Hc : (1 < 10)%R) by lra.
  assert (Hs : (Rabs 0.5 * 0.7 <= 7 * 0.05)%R)
    by (rewrite Rabs_right by lra; lra).
  split; [exact Hc |]. split; [exact Hs |].
  exact (proj1 (l1_full_shrinkage [] 10 7 0.5 1 Hc Hs)).
Defined.

(* ================================================================== *)
(** ** L2: proportional shrinkage *)

Lemma regularizedWiggleL2_ten (w : R) :
  regularizedWiggleL2 (Fin 10) (Fin w) = Fin (w / (1 + 10 * 0.5)).
Proof.
  unfold regularizedWiggleL2. cbn [mul add]. rewrite div_Fin by lra.
  reflexivity.
Qed.

(** C7.  For every training set, [complexity > 1] and noise level, kind L2
    with [regStrength = 10] shrinks the wiggle strictly relative to
    [regStrength = 0]: at every [x] where the unregularized wiggle
    [w = noiseLevel*0.7*sin(x*pi*complexity/2)] is non-zero, the fitted
    function is the ground truth plus a wiggle [w'] with [|w'| < |w|], where
    strength [0] gives the ground truth plus [w]. *)
Theorem l2_strict_shrinkage (data : list DataPoint.t)
  (complexity noise x : R) :
  (1 < complexity)%R ->
  let w := (noise * 0.7
            * Rtrigo_def.sin (x * Rtrigo1.PI * complexity / 2))%R in
  let w' := (w / (1 + 10 * 0.5))%R in
  w <> 0%R ->
  wiggle (Fin noise) (Fin complexity) (Fin x) = Fin w
  /\ regularizedWiggleL2 (Fin 10) (Fin w) = Fin w'
  /\ model (calculateModelFunction data (Fin complexity)
              RegularizationType.L2 (Fin 10) (Fin noise)) (Fin x)
     = trueFunction (Fin x) + Fin w'
  /\ model (calculateModelFunction data (Fin complexity)
              RegularizationType.L2 (Fin 0) (Fin noise)) (Fin x)
     = trueFunction (Fin x) + Fin w
  /\ (Rabs w' < Rabs w)%R
  /\ (Js.abs (Fin w') <? Js.abs (Fin w)) = true.
Proof.
  intros Hc w w' Hw.
  assert (Hleb : (Fin complexity <=? Fin 1) = false)
    by (apply Rleb_false; exact Hc).
  assert (Habs : (Rabs w' < Rabs w)%R).
  { unfold w'. unfold Rdiv. rewrite Rabs_mult.
    assert (Hi : (Rabs (/ (1 + 10 * 0.5)) = / 6)%R).
    { rewrite Rabs_right.
      - f_equal. lra.
      - apply Rle_ge. left. apply Rinv_0_lt_compat. lra. }
    rewrite Hi. pose proof (Rabs_pos_lt w Hw). lra. }
  split; [apply wiggle_finite |].
  split; [apply regularizedWiggleL2_ten |].
  rewrite !calculateModelFunction_overfit_model by exact Hleb.
  cbn [switchRegType model]. unfold modelL2. cbv zeta.
  rewrite regularizedWiggleL2_zero, wiggle_finite.
  fold w. rewrite regularizedWiggleL2_ten. fold w'.
  split; [reflexivity |]. split; [reflexivity |].
  split; [exact Habs |].
  cbn [Js.abs ltb]. apply Rltb_true. exact Habs.
Qed.

Lemma l2_strict_shrinkage_witness :
  (1 < 2)%R
  /\ (0.5 * 0.7 * Rtrigo_def.sin (0.5 * Rtrigo1.PI * 2 / 2) <> 0)%R
  /\ (Rabs (0.5 * 0.7 * Rtrigo_def.sin (0.5 * Rtrigo1.PI * 2 / 2)
            / (1 + 10 * 0.5))
      < Rabs (0.5 * 0.7 * Rtrigo_def.sin (0.5 * Rtrigo1.PI * 2 / 2)))%R.
Proof.
  assert (Hc : (1 < 2)%R) by lra.
  assert (Hw : (0.5 * 0.7 * Rtrigo_def.sin (0.5 * Rtrigo1.PI * 2 / 2) <> 0)%R).
  { replace (0.5 * Rtrigo1.PI * 2 / 2)%R with (Rtrigo1.PI / 2)%R by lra.
    rewrite sin_PI2. lra. }
  split; [exact Hc |]. split; [exact Hw |].
  exact (proj1 (proj2 (proj2 (proj2 (proj2
    (l2_strict_shrinkage [] 2 0.5 0.5 Hc Hw)))))).
Defined.

(* ================================================================== *)
(** ** Divisions by zero *)

Lemma trueFunction_NaN : trueFunction NaN = NaN.
Proof. reflexivity. Qed.

Lemma generateTrainingData_one (noiseLevel seed : number) :
  generateTrainingData 1 noiseLevel seed = [DataPoint.mk NaN NaN].
Proof.
  rewrite generateTrainingData_points. cbn [genPoints].
  unfold genPoint. cbv zeta. rewrite genX_one_zero, trueFunction_NaN.
  reflexivity.
Qed.

Lemma allSameX_sums (c : R) (l : list (R * R)) :
  (forall p, In p l -> fst p = c) ->
  sigmaX l = (INR (List.length l) * c)%R
  /\ sigmaX2 l = (INR (List.length l) * (c * c))%R
  /\ sigmaXY l = (c * sigmaY l)%R.
Proof.
  unfold sigmaX, sigmaX2, sigmaXY, sigmaY.
  induction l as [| p l IH]; intros Hc.
  - rewrite !sigma_nil. simpl. repeat split; lra.
  - rewrite !sigma_cons. cbv beta. cbn [List.length]. rewrite S_INR.
    assert (Hp : fst p = c) by (apply Hc; left; reflexivity).
    destruct IH as (H1 & H2 & H3);
      [intros q Hq; apply Hc; right; exact Hq |].
    rewrite H1, H2, H3, Hp. repeat split; lra.
Qed.

Lemma slope_allSameX (l : list (R * R)) :
  allSameX l -> slope (finiteData l) = NaN.
Proof.
  intros (c & Hc). rewrite slope_numerator_denominator.
  destruct (allSameX_sums c l Hc) as (H1 & H2 & H3).
  apply div_zero_zero.
  - rewrite H1, H3. lra.
  - unfold olsDenominator. rewrite H1, H2. lra.
Qed.

Lemma intercept_allSameX (l : list (R * R)) :
  allSameX l -> intercept (finiteData l) = NaN.
Proof.
  intros H. unfold intercept. rewrite slope_allSameX by exact H.
  rewrite dataSums_finite. reflexivity.
Qed.

(** C3, as stated, fails: with [numPoints = 1] the only point has the
    x-value NaN, and on the training set [(1, 1), (1, 2)] the fitted line of
    the least-squares branch is NaN at [x = 0]. *)
Lemma division_by_zero_not_guarded :
  forallb (fun p => is_finite (DataPoint.x p))
    (generateTrainingData 1 (Fin 0.5) (Fin 1)) = false
  /\ allSameX [(1, 1); (1, 2)]%R
  /\ (Fin 1 <=? Fin 1) = true
  /\ is_finite
       (model (calculateModelFunction (finiteData [(1, 1); (1, 2)]%R) (Fin 1)
                 RegularizationType.None (Fin 0) (Fin 0.5)) (Fin 0))
     = false.
Proof.
  assert (Hs : allSameX [(1, 1); (1, 2)]%R).
  { exists 1%R. intros p [<- | [<- | []]]; reflexivity. }
  assert (Hc : (Fin 1 <=? Fin 1) = true) by (apply Rleb_true; lra).
  split; [rewrite generateTrainingData_one; reflexivity |].
  split; [exact Hs |]. split; [exact Hc |].
  rewrite calculateModelFunction_underfit_eq by exact Hc. cbn [model].
  rewrite slope_allSameX, intercept_allSameX by exact Hs. reflexivity.
Qed.

Lemma div_zero_not_finite (a : number) : is_finite (a / Fin 0) = false.
Proof.
  destruct a as [r | | |]; cbn [div].
  - destruct (Req_dec_T 0 0) as [_ | H]; [| contradiction].
    destruct (Rsign3 r); reflexivity.
  - destruct (Rltb 0 0); reflexivity.
  - destruct (Rltb 0 0); reflexivity.
  - reflexivity.
Qed.

Lemma mul_not_finite_l (a b : number) :
  is_finite a = false -> is_finite (a * b) = false.
Proof.
  destruct a as [r | | |], b as [t | | |]; cbn [is_finite mul];
    intros H; try discriminate; try reflexivity;
    destruct (Rsign3 t); reflexivity.
Qed.

Lemma add_not_finite_l (a b : number) :
  is_finite a = false -> is_finite (a + b) = false.
Proof.
  destruct a as [r | | |], b as [t | | |]; cbn [is_finite add];
    intros H; try discriminate; reflexivity.
Qed.

Lemma slope_zero_denominator (data : list DataPoint.t) :
  slopeDenominator data = Fin 0 -> is_finite (slope data) = false.
Proof.
  unfold slopeDenominator, slope. cbv zeta. intros ->.
  apply div_zero_not_finite.
Qed.

Lemma allSameX_short (l : list (R * R)) :
  (List.length l <= 1)%nat -> allSameX l.
Proof.
  destruct l as [| p [| q l]]; cbn [List.length]; intros H.
  - exists 0%R. intros q [].
  - exists (fst p). intros q [<- | []]. reflexivity.
  - lia.
Qed.

(** C3, amended.  The divisions by zero are not guarded.
    [generateTrainingData] with [numPoints = 1] returns one point whose x
    and y are NaN ([0/0]).  The least-squares branch ([complexity <= 1])
    divides by [n * sumX2 - sumX * sumX] without testing it: whenever that
    computed divisor is zero, the slope is not finite and the fitted
    function is not finite (NaN or an infinity) at every x; and on a
    training set of fewer than two points the fitted function is NaN at
    every x. *)
Theorem division_by_zero_unguarded (noiseLevel seed : number)
  (data : list DataPoint.t) (l : list (R * R)) (complexity : number)
  (regType : RegularizationType.t) (regStrength noise x : number) :
  slopeDenominator data = Fin 0 ->
  (List.length l <= 1)%nat ->
  (complexity <=? Fin 1) = true ->
  generateTrainingData 1 noiseLevel seed = [DataPoint.mk NaN NaN]
  /\ is_finite (slope data) = false
  /\ is_finite
       (model (calculateModelFunction data complexity regType regStrength
                 noise) x) = false
  /\ model (calculateModelFunction (finiteData l) complexity regType
              regStrength noise) x = NaN
  /\ description (calculateModelFunction data complexity regType
                    regStrength noise) = underfittingText.
Proof.
  intros Hden Hlen Hc.
  split; [apply generateTrainingData_one |].
  split; [apply slope_zero_denominator; exact Hden |].
  rewrite !calculateModelFunction_underfit_eq by exact Hc.
  cbn [model description].
  split; [| split; [| reflexivity]].
  - apply add_not_finite_l, mul_not_finite_l, slope_zero_denominator.
    exact Hden.
  - rewrite slope_allSameX, intercept_allSameX
      by (apply allSameX_short; exact Hlen).
    reflexivity.
Qed.

Lemma division_by_zero_unguarded_witness :
  slopeDenominator (finiteData [(1, 1); (1, 2)]%R) = Fin 0
  /\ (List.length [(3, 4)]%R <= 1)%nat
  /\ (Fin 1 <=? Fin 1) = true
  /\ is_finite
       (model (calculateModelFunction (finiteData [(1, 1); (1, 2)]%R) (Fin 1)
                 RegularizationType.None (Fin 0) (Fin 0.5)) (Fin 0))
     = false
  /\ model (calculateModelFunction (finiteData [(3, 4)]%R) (Fin 1)
              RegularizationType.None (Fin 0) (Fin 0.5)) (Fin 0) = NaN.
Proof.
  assert (Hden : slopeDenominator (finiteData [(1, 1); (1, 2)]%R) = Fin 0).
  { unfold slopeDenominator. cbv zeta.
    rewrite dataSums_finite, finiteData_length.
    unfold of_nat, sigmaX, sigmaX2. rewrite !sigma_cons, !sigma_nil.
    cbn [sumX sumX2 mul sub add neg fst List.length INR]. f_equal. lra. }
  assert (Hlen : (List.length [(3, 4)]%R <= 1)%nat) by (simpl; lia).
  assert (Hc : (Fin 1 <=? Fin 1) = true) by (apply Rleb_true; lra).
  split; [exact Hden |]. split; [exact Hlen |]. split; [exact Hc |].
  pose proof (division_by_zero_unguarded (Fin 0.5) (Fin 1)
                (finiteData [(1, 1); (1, 2)]%R) [(3, 4)]%R (Fin 1)
                RegularizationType.None (Fin 0) (Fin 0.5) (Fin 0)
                Hden Hlen Hc) as (_ & _ & H3 & H4 & _).
  split; [exact H3 | exact H4].
Defined.

(* ================================================================== *)
(** ** Further properties: the noise generator and the training set *)

Lemma Rabs_le_inv (a b : R) : (Rabs a <= b)%R -> (- b <= a <= b)%R.
Proof.
  unfold Rabs. destruct (Rcase_abs a); intros H; lra.
Qed.

Lemma add_Fin0_r (a : number) : a + Fin 0 = a.
Proof.
  destruct a as [r | | |]; cbn [add]; try reflexivity. f_equal. lra.
Qed.

Lemma pseudoRandomCalls_Fin (n : nat) :
  forall s : R,
    pseudoRandomCalls n (Fin s)
    = map (fun k => Fin (frac_part (Rtrigo_def.sin (s + INR k) * 10000)))
        (seq 0 n).
Proof.
  induction n as [| n IH]; intros s; [reflexivity |].
  cbn [pseudoRandomCalls pseudoRandom seq map].
  change (Fin s + Fin 1) with (Fin (s + 1)).
  rewrite IH, <- seq_shift, map_map. f_equal.
  - unfold frac_part. do 2 f_equal; simpl; rewrite Rplus_0_r; reflexivity.
  - apply map_ext. intros k. rewrite S_INR. do 4 f_equal. lra.
Qed.

(** Every sample drawn from a finite seed is a finite number in [[0, 1)]. *)
Theorem pseudoRandom_samples_in_unit_interval (s : R) (n : nat) :
  Forall (fun r => exists v : R, r = Fin v /\ (0 <= v < 1)%R)
    (pseudoRandomCalls n (Fin s)).
Proof.
  rewrite pseudoRandomCalls_Fin. apply Forall_forall. intros r Hr.
  apply in_map_iff in Hr. destruct Hr as (k & <- & _).
  eexists. split; [reflexivity |].
  destruct (base_fp (Rtrigo_def.sin (s + INR k) * 10000)) as [H0 H1]. lra.
Qed.

Lemma generateTrainingData_map (numPoints : nat) (noiseLevel seed : number) :
  generateTrainingData numPoints noiseLevel seed
  = map (fun i => genPoint numPoints noiseLevel i (seedAfter seed i))
      (seq 0 numPoints).
Proof.
  apply nth_error_ext. intros i.
  rewrite nth_error_map, nth_error_seq.
  destruct (Nat.ltb_spec i numPoints) as [Hlt | Hge].
  - rewrite generateTrainingData_nth by exact Hlt. reflexivity.
  - apply nth_error_None.
    rewrite generateTrainingData_points, genPoints_length. exact Hge.
Qed.

Lemma genPoint_finite (numPoints : nat) (noiseLevel s : R) (i : nat) :
  (2 <= numPoints)%nat ->
  genPoint numPoints (Fin noiseLevel) i (Fin (s + INR i))
  = DataPoint.mk (Fin (-2 + 4 * INR i / (INR numPoints - 1)))
      (Fin (Rtrigo_def.sin ((-2 + 4 * INR i / (INR numPoints - 1))
                            * Rtrigo1.PI / 2)
            + (frac_part (Rtrigo_def.sin (s + INR i) * 10000) - 0.5)
              * noiseLevel * 2)).
Proof.
  intros Hn. unfold genPoint. cbv zeta.
  rewrite genX_finite by exact Hn.
  rewrite pseudoRandom_Fin, trueFunction_finite. reflexivity.
Qed.

Lemma noise_term_bound (r noiseLevel : R) :
  (0 <= r < 1)%R -> (Rabs ((r - 0.5) * noiseLevel * 2) <= Rabs noiseLevel)%R.
Proof.
  intros Hr.
  replace ((r - 0.5) * noiseLevel * 2)%R with ((2 * r - 1) * noiseLevel)%R by lra.
  rewrite Rabs_mult.
  assert (H1 : (Rabs (2 * r - 1) <= 1)%R) by (apply Rabs_le; lra).
  pose proof (Rabs_pos noiseLevel). pose proof (Rabs_pos (2 * r - 1)). nra.
Qed.

(** For [numPoints >= 2] and a finite noise level and seed, the point of
    index [i] is finite, its y-value is the ground truth at its x-value plus
    [(r_i - 0.5) * noiseLevel * 2] where [r_i = frac(sin(seed + i) * 10000)],
    and so lies within [|noiseLevel|] of the ground truth. *)
Theorem generateTrainingData_noise_band (numPoints : nat)
  (noiseLevel seed : R) (i : nat) :
  (2 <= numPoints)%nat ->
  (i < numPoints)%nat ->
  let xi := (-2 + 4 * INR i / (INR numPoints - 1))%R in
  let ri := frac_part (Rtrigo_def.sin (seed + INR i) * 10000) in
  let yi := (Rtrigo_def.sin (xi * Rtrigo1.PI / 2)
             + (ri - 0.5) * noiseLevel * 2)%R in
  nth_error (generateTrainingData numPoints (Fin noiseLevel) (Fin seed)) i
  = Some (DataPoint.mk (Fin xi) (Fin yi))
  /\ (Rabs (yi - Rtrigo_def.sin (xi * Rtrigo1.PI / 2)) <= Rabs noiseLevel)%R
  /\ (Rabs yi <= 1 + Rabs noiseLevel)%R.
Proof.
  intros Hn Hi xi ri yi.
  assert (Hband : (Rabs (yi - Rtrigo_def.sin (xi * Rtrigo1.PI / 2))
                   <= Rabs noiseLevel)%R).
  { unfold yi.
    replace (Rtrigo_def.sin (xi * Rtrigo1.PI / 2) + (ri - 0.5) * noiseLevel * 2
             - Rtrigo_def.sin (xi * Rtrigo1.PI / 2))%R
      with ((ri - 0.5) * noiseLevel * 2)%R by lra.
    apply noise_term_bound. unfold ri.
    destruct (base_fp (Rtrigo_def.sin (seed + INR i) * 10000)). lra. }
  split; [| split; [exact Hband |]].
  - rewrite generateTrainingData_nth by exact Hi.
    rewrite seedAfter_Fin, genPoint_finite by exact Hn. reflexivity.
  - pose proof (SIN_bound (xi * Rtrigo1.PI / 2)) as [Hl Hu].
    apply Rabs_le. apply Rabs_le_inv in Hband. lra.
Qed.

Lemma generateTrainingData_noise_band_witness :
  (2 <= 30)%nat /\ (3 < 30)%nat
  /\ (Rabs (Rtrigo_def.sin ((-2 + 4 * INR 3 / (INR 30 - 1)) * Rtrigo1.PI / 2)
            + (frac_part (Rtrigo_def.sin (1 + INR 3) * 10000) - 0.5) * 0.5 * 2)
      <= 1 + Rabs 0.5)%R.
Proof.
  assert (Hn : (2 <= 30)%nat) by lia.
  assert (Hi : (3 < 30)%nat) by lia.
  split; [exact Hn |]. split; [exact Hi |].
  exact (proj2 (proj2 (generateTrainingData_noise_band 30 0.5 1 3 Hn Hi))).
Defined.

(** With [noiseLevel = 0] every training point lies on the ground truth:
    [y = trueFunction(x)], whatever the number of points and the (finite)
    seed. *)
Theorem generateTrainingData_zero_noise (numPoints : nat) (seed : R) :
  Forall (fun p => DataPoint.y p = trueFunction (DataPoint.x p))
    (generateTrainingData numPoints (Fin 0) (Fin seed)).
Proof.
  rewrite generateTrainingData_map. apply Forall_forall. intros p Hp.
  apply in_map_iff in Hp. destruct Hp as (i & <- & _).
  rewrite seedAfter_Fin. unfold genPoint. cbv zeta.
  rewrite pseudoRandom_Fin. cbn [DataPoint.x DataPoint.y sub neg add mul].
  match goal with
  | |- _ + Fin ?e = _ => replace e with 0%R by lra
  end.
  apply add_Fin0_r.
Qed.

(** For [numPoints >= 2] the x-values of the training set are finite, lie
    in [[-2, 2]] and increase strictly, whatever the noise level and the
    seed (finite or not). *)
Theorem generateTrainingData_x_sorted (numPoints : nat)
  (noiseLevel seed : number) :
  (2 <= numPoints)%nat ->
  xStrictlyIncreasing (generateTrainingData numPoints noiseLevel seed)
  /\ Forall (fun p => exists u : R,
               DataPoint.x p = Fin u /\ (-2 <= u <= 2)%R)
       (generateTrainingData numPoints noiseLevel seed).
Proof.
  intros Hn.
  assert (H2 : (2 <= INR numPoints)%R) by (apply (le_INR 2); exact Hn).
  rewrite generateTrainingData_map. split.
  - apply StronglySorted_map_seq. intros a b Hab.
    unfold genPoint. cbv zeta. cbn [DataPoint.x].
    rewrite !genX_finite by exact Hn. cbn [ltb]. apply Rltb_true.
    apply lt_INR in Hab.
    assert (Hd : (0 < / (INR numPoints - 1))%R)
      by (apply Rinv_0_lt_compat; lra).
    unfold Rdiv. nra.
  - apply Forall_forall. intros p Hp.
    apply in_map_iff in Hp. destruct Hp as (i & <- & Hi).
    apply in_seq in Hi.
    unfold genPoint. cbv zeta. cbn [DataPoint.x].
    rewrite genX_finite by exact Hn. eexists. split; [reflexivity |].
    assert (Hi' : (INR i <= INR numPoints - 1)%R).
    { replace (INR numPoints - 1)%R with (INR (numPoints - 1)).
      - apply le_INR. lia.
      - rewrite minus_INR by lia. simpl. lra. }
    pose proof (pos_INR i) as Hpos.
    assert (Hd : (0 < / (INR numPoints - 1))%R)
      by (apply Rinv_0_lt_compat; lra).
    assert (Hone : ((INR numPoints - 1) * / (INR numPoints - 1) = 1)%R)
      by (apply Rinv_r; lra).
    unfold Rdiv. nra.
Qed.

Lemma generateTrainingData_x_sorted_witness :
  (2 <= 30)%nat
  /\ xStrictlyIncreasing (generateTrainingData 30 (Fin 0.5) (Fin 1)).
Proof.
  assert (Hn : (2 <= 30)%nat) by lia.
  split; [exact Hn |].
  exact (proj1 (generateTrainingData_x_sorted 30 (Fin 0.5) (Fin 1) Hn)).
Defined.

(* ================================================================== *)
(** ** Further properties: the ground truth *)

(** The ground truth [trueFunction] is odd, takes finite values between
    [-1] and [1] on finite arguments, is [0] at [0], and is NaN on NaN and
    on the infinities. *)
Theorem trueFunction_odd_bounded (x : R) :
  trueFunction (Fin (- x)) = neg (trueFunction (Fin x))
  /\ (exists v : R, trueFunction (Fin x) = Fin v /\ (-1 <= v <= 1)%R)
  /\ trueFunction (Fin 0) = Fin 0
  /\ trueFunction NaN = NaN
  /\ trueFunction PInf = NaN
  /\ trueFunction NInf = NaN.
Proof.
  rewrite !trueFunction_finite.
  split; [| split; [| split; [| split]]].
  - cbn [neg]. f_equal.
    replace (- x * Rtrigo1.PI / 2)%R with (- (x * Rtrigo1.PI / 2))%R by lra.
    apply sin_neg.
  - eexists. split; [reflexivity | apply SIN_bound].
  - f_equal.
    replace (0 * Rtrigo1.PI / 2)%R with 0%R by lra. apply sin_0.
  - reflexivity.
  - unfold trueFunction, Js.PI. cbn [mul].
    rewrite Rsign3_pos by apply PI_RGT_0.
    cbn [inf_of sign_mul mul].
    rewrite Rsign3_pos by lra. split; reflexivity.
Qed.

(* ================================================================== *)
(** ** Further properties: the curve sampler *)

Lemma getLineData_xs (model : number -> number) (lo hi : number)
  (steps : nat) :
  map DataPoint.x (getLineData model (lo, hi) steps)
  = map (fun i => lo + of_nat i * ((hi - lo) / of_nat steps))
      (seq 0 (S steps)).
Proof.
  rewrite getLineData_points, map_map. reflexivity.
Qed.

(** For every model, every domain (finite or not) and every step count
    (zero included), [getLineData] returns [steps + 1] points, whose
    x-values do not depend on the model and whose y-values are the model at
    the x-values. *)
Theorem getLineData_shape (f g : number -> number) (domain : number * number)
  (steps : nat) :
  List.length (getLineData f domain steps) = S steps
  /\ map DataPoint.x (getLineData f domain steps)
     = map DataPoint.x (getLineData g domain steps)
  /\ map DataPoint.y (getLineData f domain steps)
     = map f (map DataPoint.x (getLineData f domain steps)).
Proof.
  destruct domain as [lo hi].
  split; [| split].
  - rewrite getLineData_points, length_map, length_seq. reflexivity.
  - rewrite !getLineData_xs. reflexivity.
  - rewrite getLineData_points, !map_map. reflexivity.
Qed.

(** With [steps = 0] the step size is a division by zero: whatever the
    (finite) domain, [getLineData] returns a single point whose x-value is
    NaN. *)
Theorem getLineData_zero_steps (f : number -> number) (lo hi : R) :
  getLineData f (Fin lo, Fin hi) 0 = [DataPoint.mk NaN (f NaN)].
Proof.
  rewrite getLineData_points. cbn [seq map]. unfold linePoint, of_nat.
  cbv zeta. rewrite sub_Fin.
  assert (Hx : Fin lo + Fin (INR 0) * (Fin (hi - lo) / Fin (INR 0)) = NaN).
  { unfold div. simpl INR.
    destruct (Req_dec_T 0 0) as [_ | H]; [| contradiction].
    unfold Rsign3 at 1.
    destruct (total_order_T (hi - lo) 0) as [[H | H] | H];
      cbn [inf_of mul sign_mul];
      rewrite ?Rsign3_pos, ?Rsign3_neg by lra;
      unfold Rsign3;
      destruct (total_order_T 0 0) as [[H0 | H0] | H0];
      try lra; reflexivity. }
  rewrite Hx. reflexivity.
Qed.

Lemma getLineData_finite_map (f : number -> number) (lo hi : R)
  (steps : nat) :
  (1 <= steps)%nat ->
  getLineData f (Fin lo, Fin hi) steps
  = map (fun i => DataPoint.mk (Fin (lo + INR i * ((hi - lo) / INR steps)))
                    (f (Fin (lo + INR i * ((hi - lo) / INR steps)))))
      (seq 0 (S steps)).
Proof.
  intros Hs. rewrite getLineData_points. apply map_ext.
  intros i. apply linePoint_finite. exact Hs.
Qed.

(** For [steps >= 1] and [lo <= hi], every x-value of [getLineData] lies in
    [[lo, hi]], and two consecutive x-values differ by exactly
    [(hi - lo) / steps]. *)
Theorem getLineData_evenly_spaced (f : number -> number) (lo hi : R)
  (steps : nat) :
  (1 <= steps)%nat ->
  (lo <= hi)%R ->
  let xs := map DataPoint.x (getLineData f (Fin lo, Fin hi) steps) in
  Forall (fun a => exists u : R, a = Fin u /\ (lo <= u <= hi)%R) xs
  /\ (forall i, (i < steps)%nat ->
        exists u u' : R,
          nth_error xs i = Some (Fin u)
          /\ nth_error xs (S i) = Some (Fin u')
          /\ (u' - u = (hi - lo) / INR steps)%R).
Proof.
  intros Hs Hlohi xs.
  assert (H1 : (1 <= INR steps)%R) by (apply (le_INR 1); exact Hs).
  assert (Hd : (0 < / INR steps)%R) by (apply Rinv_0_lt_compat; lra).
  assert (Hone : (INR steps * / INR steps = 1)%R) by (apply Rinv_r; lra).
  assert (Hxs : xs = map (fun i => Fin (lo + INR i * ((hi - lo) / INR steps)))
                       (seq 0 (S steps))).
  { unfold xs. rewrite getLineData_finite_map by exact Hs.
    rewrite map_map. reflexivity. }
  rewrite Hxs. split.
  - apply Forall_forall. intros a Ha.
    apply in_map_iff in Ha. destruct Ha as (i & <- & Hi).
    apply in_seq in Hi. eexists. split; [reflexivity |].
    assert (Hi' : (INR i <= INR steps)%R) by (apply le_INR; lia).
    pose proof (pos_INR i) as Hpos.
    assert (Ht0 : (0 <= INR i * / INR steps)%R)
      by (apply Rmult_le_pos; lra).
    assert (Ht1 : (INR i * / INR steps <= 1)%R).
    { rewrite <- Hone. apply Rmult_le_compat_r; lra. }
    replace (lo + INR i * ((hi - lo) / INR steps))%R
      with (lo + (hi - lo) * (INR i * / INR steps))%R
      by (unfold Rdiv; ring).
    nra.
  - intros i Hi. do 2 eexists.
    rewrite !nth_error_map, !nth_error_seq.
    assert (Ha : (i <? S steps)%nat = true) by (apply Nat.ltb_lt; lia).
    assert (Hb : (S i <? S steps)%nat = true) by (apply Nat.ltb_lt; lia).
    rewrite Ha, Hb. cbn [option_map Nat.add].
    split; [reflexivity |]. split; [reflexivity |].
    rewrite S_INR. lra.
Qed.

Lemma getLineData_evenly_spaced_witness :
  (1 <= 100)%nat /\ (-2 <= 2)%R
  /\ Forall (fun a => exists u : R, a = Fin u /\ (-2 <= u <= 2)%R)
       (map DataPoint.x (getLineData trueFunction (Fin (-2), Fin 2) 100)).
Proof.
  assert (Hs : (1 <= 100)%nat) by lia.
  assert (Hd : (-2 <= 2)%R) by lra.
  split; [exact Hs |]. split; [exact Hd |].
  exact (proj1 (getLineData_evenly_spaced trueFunction (-2) 2 100 Hs Hd)).
Defined.

(* ================================================================== *)
(** ** Further properties: which arguments [calculateModelFunction] reads *)

(** With [complexity <= 1] the result depends on the training set only: the
    regularization kind, the strength and the noise level are not read. *)
Theorem underfit_ignores_regularization (data : list DataPoint.t)
  (complexity : number) (regType1 regType2 : RegularizationType.t)
  (regStrength1 regStrength2 noise1 noise2 : number) :
  (complexity <=? Fin 1) = true ->
  calculateModelFunction data complexity regType1 regStrength1 noise1
  = calculateModelFunction data complexity regType2 regStrength2 noise2.
Proof.
  intros Hc. rewrite !calculateModelFunction_underfit_eq by exact Hc.
  reflexivity.
Qed.

Lemma underfit_ignores_regularization_witness :
  (Fin 1 <=? Fin 1) = true
  /\ calculateModelFunction [] (Fin 1) RegularizationType.L1 (Fin 3) (Fin 0.5)
     = calculateModelFunction [] (Fin 1) RegularizationType.None (Fin 0) (Fin 1).
Proof.
  assert (Hc : (Fin 1 <=? Fin 1) = true) by (apply Rleb_true; lra).
  split; [exact Hc |].
  exact (underfit_ignores_regularization [] (Fin 1) RegularizationType.L1
           RegularizationType.None (Fin 3) (Fin 0) (Fin 0.5) (Fin 1) Hc).
Defined.

(** With kind [None] the strength is not read: any two strengths (NaN and
    the infinities included) give the same fitted function and the same
    description, at every complexity. *)
Theorem none_ignores_strength (data : list DataPoint.t)
  (complexity regStrength1 regStrength2 noise : number) :
  calculateModelFunction data complexity RegularizationType.None
    regStrength1 noise
  = calculateModelFunction data complexity RegularizationType.None
      regStrength2 noise.
Proof.
  unfold calculateModelFunction.
  destruct (complexity <=? Fin 1); [reflexivity |].
  cbn [RegularizationType.eqb negb]. rewrite !andb_false_r. reflexivity.
Qed.

(** With [complexity > 1] and [regStrength > 0], kind L1 (L2) gives the L1
    (L2) text followed by the low-complexity sentence when
    [complexity <= 5] and by the smoothing sentence when [complexity > 5]:
    neither the overfitting nor the good-fit text is shown. *)
Theorem regularized_description (data : list DataPoint.t)
  (complexity regStrength : R) (noise : number) :
  (1 < complexity)%R ->
  (0 < regStrength)%R ->
  let d1 := description (calculateModelFunction data (Fin complexity)
                           RegularizationType.L1 (Fin regStrength) noise) in
  let d2 := description (calculateModelFunction data (Fin complexity)
                           RegularizationType.L2 (Fin regStrength) noise) in
  ((complexity <= 5)%R ->
     d1 = (l1Text ++ lowComplexitySuffix)%string
     /\ d2 = (l2Text ++ lowComplexitySuffix)%string)
  /\ ((5 < complexity)%R ->
        d1 = (l1Text ++ highComplexitySuffix)%string
        /\ d2 = (l2Text ++ highComplexitySuffix)%string).
Proof.
  intros Hc Hs d1 d2. unfold d1, d2, calculateModelFunction.
  assert (H1 : (Fin complexity <=? Fin 1) = false)
    by (apply Rleb_false; exact Hc).
  assert (H0 : (Fin regStrength >? Fin 0) = true)
    by (apply Rltb_true; exact Hs).
  assert (He : (Fin regStrength === Fin 0) = false).
  { cbn [eqb]. unfold Reqb.
    destruct (Req_dec_T regStrength 0); [lra | reflexivity]. }
  rewrite H1, H0. cbn [RegularizationType.eqb negb andb].
  split; intros H5.
  - assert (Hl : (Fin complexity <=? Fin 5) = true)
      by (apply Rleb_true; exact H5).
    rewrite Hl. cbn [switchRegType description]. rewrite He.
    split; reflexivity.
  - assert (Hl : (Fin complexity <=? Fin 5) = false)
      by (apply Rleb_false; exact H5).
    rewrite Hl. cbn [switchRegType description]. rewrite He.
    split; reflexivity.
Qed.

Lemma regularized_description_witness :
  (1 < 10)%R /\ (0 < 2)%R /\ (5 < 10)%R
  /\ description (calculateModelFunction [] (Fin 10) RegularizationType.L1
                    (Fin 2) (Fin 0.5))
     = (l1Text ++ highComplexitySuffix)%string.
Proof.
  assert (Hc : (1 < 10)%R) by lra.
  assert (Hs : (0 < 2)%R) by lra.
  assert (H5 : (5 < 10)%R) by lra.
  split; [exact Hc |]. split; [exact Hs |]. split; [exact H5 |].
  exact (proj1 (proj2 (regularized_description [] 10 2 (Fin 0.5) Hc Hs) H5)).
Defined.

(* ================================================================== *)
(** ** Further properties: the shrinkage of the wiggle *)

Lemma sign_cases (w : R) :
  exists k : R,
    Js.sign (Fin w) = Fin k
    /\ ((w < 0 /\ k = -1) \/ (w = 0 /\ k = 0) \/ (0 < w /\ k = 1))%R.
Proof.
  unfold Js.sign, Rsign3.
  destruct (total_order_T w 0) as [[H | H] | H]; eexists;
    (split; [reflexivity |]); [left | right; left | right; right];
    split; auto.
Qed.

Lemma l1_wiggle_finite (regStrength w : R) :
  (0 <= regStrength)%R ->
  exists w' : R,
    regularizedWiggleL1 (Fin regStrength) (Fin w) = Fin w'
    /\ Rabs w' = Rmax 0 (Rabs w - regStrength * 0.05)
    /\ (0 <= w * w')%R
    /\ (Rabs w' <= Rabs w)%R.
Proof.
  intros Hs. unfold regularizedWiggleL1.
  destruct (sign_cases w) as (k & -> & Hk).
  cbn [Js.abs mul sub add neg Js.max].
  change (Rabs w + - (regStrength * 0.05))%R
    with (Rabs w - regStrength * 0.05)%R.
  set (M := Rmax 0 (Rabs w - regStrength * 0.05)).
  assert (HM0 : (0 <= M)%R) by apply Rmax_l.
  assert (HMw : (M <= Rabs w)%R).
  { unfold M. apply Rmax_lub; [apply Rabs_pos | lra]. }
  exists (k * M)%R. split; [reflexivity |].
  destruct Hk as [[Hw ->] | [[Hw ->] | [Hw ->]]].
  - rewrite Rabs_left in HMw by lra.
    replace (-1 * M)%R with (- M)%R by lra. rewrite Rabs_Ropp.
    rewrite (Rabs_right M) by lra. rewrite (Rabs_left w) by lra.
    repeat split; try lra. nra.
  - subst w. rewrite Rabs_R0 in HMw.
    assert (M = 0)%R by lra.
    replace (0 * M)%R with 0%R by lra. rewrite Rabs_R0.
    repeat split; lra.
  - rewrite Rabs_right in HMw by lra.
    replace (1 * M)%R with M by lra.
    rewrite (Rabs_right M) by lra. rewrite (Rabs_right w) by lra.
    repeat split; try lra. nra.
Qed.

Lemma Rabs_div_pos (w a : R) : (0 < a)%R -> Rabs (w / a) = (Rabs w / a)%R.
Proof.
  intros Ha. unfold Rdiv. rewrite Rabs_mult. f_equal.
  apply Rabs_right. apply Rle_ge. left. apply Rinv_0_lt_compat. exact Ha.
Qed.

Lemma regularizedWiggleL2_finite (regStrength w : R) :
  (1 + regStrength * 0.5 <> 0)%R ->
  regularizedWiggleL2 (Fin regStrength) (Fin w)
  = Fin (w / (1 + regStrength * 0.5)).
Proof.
  intros H. unfold regularizedWiggleL2. cbn [mul add].
  rewrite div_Fin by exact H. reflexivity.
Qed.

Lemma l2_wiggle_shrinks (regStrength w : R) :
  (0 <= regStrength)%R ->
  (Rabs (w / (1 + regStrength * 0.5)) <= Rabs w)%R.
Proof.
  intros Hs. rewrite Rabs_div_pos by lra.
  pose proof (Rabs_pos w) as Hw.
  assert (Hi : (0 < / (1 + regStrength * 0.5))%R)
    by (apply Rinv_0_lt_compat; lra).
  assert (Hone : ((1 + regStrength * 0.5) * / (1 + regStrength * 0.5) = 1)%R)
    by (apply Rinv_r; lra).
  unfold Rdiv. nra.
Qed.

(** Kind L1 with [regStrength >= 0] soft-thresholds the wiggle: at every
    [x] the fitted function is the ground truth plus a wiggle [w'] whose
    size is [max(0, |w| - 0.05 * regStrength)], which keeps the sign of the
    unregularized wiggle [w] and is never larger than it. *)
Theorem l1_soft_threshold (data : list DataPoint.t)
  (complexity regStrength noise x : R) :
  (1 < complexity)%R ->
  (0 <= regStrength)%R ->
  let w := (noise * 0.7
            * Rtrigo_def.sin (x * Rtrigo1.PI * complexity / 2))%R in
  exists w' : R,
    model (calculateModelFunction data (Fin complexity)
             RegularizationType.L1 (Fin regStrength) (Fin noise)) (Fin x)
    = trueFunction (Fin x) + Fin w'
    /\ Rabs w' = Rmax 0 (Rabs w - regStrength * 0.05)
    /\ (0 <= w * w')%R
    /\ (Rabs w' <= Rabs w)%R.
Proof.
  intros Hc Hs w.
  assert (Hleb : (Fin complexity <=? Fin 1) = false)
    by (apply Rleb_false; exact Hc).
  destruct (l1_wiggle_finite regStrength w Hs) as (w' & Hw' & Hrest).
  exists w'. split; [| exact Hrest].
  rewrite calculateModelFunction_overfit_model by exact Hleb.
  cbn [switchRegType model]. unfold modelL1. cbv zeta.
  rewrite wiggle_finite. fold w. rewrite Hw'. reflexivity.
Qed.

Lemma l1_soft_threshold_witness :
  (1 < 10)%R /\ (0 <= 2)%R
  /\ exists w' : R,
       model (calculateModelFunction [] (Fin 10) RegularizationType.L1
                (Fin 2) (Fin 0.5)) (Fin 1)
       = trueFunction (Fin 1) + Fin w'
       /\ (Rabs w'
           <= Rabs (0.5 * 0.7 * Rtrigo_def.sin (1 * Rtrigo1.PI * 10 / 2)))%R.
Proof.
  assert (Hc : (1 < 10)%R) by lra.
  assert (Hs : (0 <= 2)%R) by lra.
  split; [exact Hc |]. split; [exact Hs |].
  destruct (l1_soft_threshold [] 10 2 0.5 1 Hc Hs) as (w' & H1 & _ & _ & H4).
  exists w'. split; [exact H1 | exact H4].
Defined.

(** Kind L2 shrinks more as the strength grows and never reaches zero: for
    strengths [0 <= s1 < s2] and a non-zero unregularized wiggle [w], the
    fitted function is the ground truth plus [w / (1 + s*0.5)], and
    [0 < |w / (1 + s2*0.5)| < |w / (1 + s1*0.5)| <= |w|]. *)
Theorem l2_shrinkage_monotone (data : list DataPoint.t)
  (complexity s1 s2 noise x : R) :
  (1 < complexity)%R ->
  (0 <= s1 < s2)%R ->
  let w := (noise * 0.7
            * Rtrigo_def.sin (x * Rtrigo1.PI * complexity / 2))%R in
  w <> 0%R ->
  model (calculateModelFunction data (Fin complexity)
           RegularizationType.L2 (Fin s1) (Fin noise)) (Fin x)
  = trueFunction (Fin x) + Fin (w / (1 + s1 * 0.5))
  /\ model (calculateModelFunction data (Fin complexity)
              RegularizationType.L2 (Fin s2) (Fin noise)) (Fin x)
     = trueFunction (Fin x) + Fin (w / (1 + s2 * 0.5))
  /\ (0 < Rabs (w / (1 + s2 * 0.5)))%R
  /\ (Rabs (w / (1 + s2 * 0.5)) < Rabs (w / (1 + s1 * 0.5)))%R
  /\ (Rabs (w / (1 + s1 * 0.5)) <= Rabs w)%R.
Proof.
  intros Hc [Hs1 Hs12] w Hw.
  assert (Hleb : (Fin complexity <=? Fin 1) = false)
    by (apply Rleb_false; exact Hc).
  rewrite !calculateModelFunction_overfit_model by exact Hleb.
  cbn [switchRegType model]. unfold modelL2. cbv zeta.
  rewrite wiggle_finite. fold w.
  rewrite !regularizedWiggleL2_finite by lra.
  split; [reflexivity |]. split; [reflexivity |].
  assert (Hpos : (0 < Rabs w)%R) by (apply Rabs_pos_lt; exact Hw).
  assert (Hi2 : (0 < / (1 + s2 * 0.5))%R) by (apply Rinv_0_lt_compat; lra).
  assert (Hlt : (/ (1 + s2 * 0.5) < / (1 + s1 * 0.5))%R).
  { apply Rinv_lt_contravar; [| lra].
    apply Rmult_lt_0_compat; lra. }
  rewrite !Rabs_div_pos by lra.
  split; [| split].
  - unfold Rdiv. apply Rmult_lt_0_compat; assumption.
  - unfold Rdiv. apply Rmult_lt_compat_l; assumption.
  - rewrite <- Rabs_div_pos by lra. apply l2_wiggle_shrinks. exact Hs1.
Qed.

Lemma l2_shrinkage_monotone_witness :
  (1 < 2)%R /\ (0 <= 1 < 3)%R
  /\ (0.5 * 0.7 * Rtrigo_def.sin (0.5 * Rtrigo1.PI * 2 / 2) <> 0)%R
  /\ (Rabs (0.5 * 0.7 * Rtrigo_def.sin (0.5 * Rtrigo1.PI * 2 / 2)
            / (1 + 3 * 0.5))
      < Rabs (0.5 * 0.7 * Rtrigo_def.sin (0.5 * Rtrigo1.PI * 2 / 2)
              / (1 + 1 * 0.5)))%R.
Proof.
  assert (Hc : (1 < 2)%R) by lra.
  assert (Hs : (0 <= 1 < 3)%R) by lra.
  assert (Hw : (0.5 * 0.7 * Rtrigo_def.sin (0.5 * Rtrigo1.PI * 2 / 2) <> 0)%R).
  { replace (0.5 * Rtrigo1.PI * 2 / 2)%R with (Rtrigo1.PI / 2)%R by lra.
    rewrite sin_PI2. lra. }
  split; [exact Hc |]. split; [exact Hs |]. split; [exact Hw |].
  exact (proj1 (proj2 (proj2 (proj2
    (l2_shrinkage_monotone [] 2 1 3 0.5 0.5 Hc Hs Hw))))).
Defined.

(** Kind L2 with the strength [-2] divides by [1 + (-2)*0.5 = 0]: with
    [complexity > 1] the fitted value at every finite [x] is not finite (an
    infinity or NaN). *)
Theorem l2_strength_minus_two_divides_by_zero (data : list DataPoint.t)
  (complexity noise x : R) :
  (1 < complexity)%R ->
  is_finite
    (model (calculateModelFunction data (Fin complexity)
              RegularizationType.L2 (Fin (-2)) (Fin noise)) (Fin x))
  = false.
Proof.
  intros Hc.
  assert (Hleb : (Fin complexity <=? Fin 1) = false)
    by (apply Rleb_false; exact Hc).
  rewrite calculateModelFunction_overfit_model by exact Hleb.
  cbn [switchRegType model]. unfold modelL2. cbv zeta.
  rewrite wiggle_finite.
  unfold regularizedWiggleL2. cbn [mul add]. unfold div.
  destruct (Req_dec_T (1 + -2 * 0.5) 0) as [_ | H]; [| exfalso; lra].
  rewrite trueFunction_finite.
  destruct (Rsign3 _); reflexivity.
Qed.

Lemma l2_strength_minus_two_divides_by_zero_witness :
  (1 < 2)%R
  /\ is_finite
       (model (calculateModelFunction [] (Fin 2) RegularizationType.L2
                 (Fin (-2)) (Fin 0.5)) (Fin 0.5))
     = false.
Proof.
  assert (Hc : (1 < 2)%R) by lra.
  split; [exact Hc |].
  exact (l2_strength_minus_two_divides_by_zero [] 2 0.5 0.5 Hc).
Defined.

Lemma overfit_model_wiggle (data : list DataPoint.t)
  (regType : RegularizationType.t) (complexity regStrength noise x : R) :
  (1 < complexity)%R ->
  (0 <= regStrength)%R ->
  exists w' : R,
    model (calculateModelFunction data (Fin complexity) regType
             (Fin regStrength) (Fin noise)) (Fin x)
    = Fin (Rtrigo_def.sin (x * Rtrigo1.PI / 2) + w')
    /\ (Rabs w' <= 0.7 * Rabs noise)%R.
Proof.
  intros Hc Hs.
  assert (Hleb : (Fin complexity <=? Fin 1) = false)
    by (apply Rleb_false; exact Hc).
  pose proof (wiggle_abs_bound noise complexity x) as Hw.
  set (w := (noise * 0.7
             * Rtrigo_def.sin (x * Rtrigo1.PI * complexity / 2))%R) in *.
  rewrite calculateModelFunction_overfit_model by exact Hleb.
  destruct regType; cbn [switchRegType model].
  - exists w. unfold baseOverfitModel. cbv zeta.
    rewrite wiggle_finite, trueFunction_finite. fold w.
    split; [reflexivity | lra].
  - destruct (l1_wiggle_finite regStrength w Hs) as (w' & Hw' & _ & _ & Hle).
    exists w'. unfold modelL1. cbv zeta.
    rewrite wiggle_finite, trueFunction_finite. fold w. rewrite Hw'.
    split; [reflexivity | lra].
  - exists (w / (1 + regStrength * 0.5))%R. unfold modelL2. cbv zeta.
    rewrite wiggle_finite, trueFunction_finite. fold w.
    rewrite regularizedWiggleL2_finite by lra.
    split; [reflexivity |].
    pose proof (l2_wiggle_shrinks regStrength w Hs). lra.
Qed.

(** For every kind, [complexity > 1] and [regStrength >= 0], the fitted
    value at a finite [x] is finite and within [0.7 * |noise|] of the
    ground truth, hence at most [1 + 0.7 * |noise|] in absolute value. *)
Theorem overfit_model_near_truth (data : list DataPoint.t)
  (regType : RegularizationType.t) (complexity regStrength noise x : R) :
  (1 < complexity)%R ->
  (0 <= regStrength)%R ->
  exists v : R,
    model (calculateModelFunction data (Fin complexity) regType
             (Fin regStrength) (Fin noise)) (Fin x) = Fin v
    /\ (Rabs (v - Rtrigo_def.sin (x * Rtrigo1.PI / 2)) <= 0.7 * Rabs noise)%R
    /\ (Rabs v <= 1 + 0.7 * Rabs noise)%R.
Proof.
  intros Hc Hs.
  destruct (overfit_model_wiggle data regType complexity regStrength noise x
              Hc Hs) as (w' & Hv & Hb).
  exists (Rtrigo_def.sin (x * Rtrigo1.PI / 2) + w')%R.
  split; [exact Hv |].
  replace (Rtrigo_def.sin (x * Rtrigo1.PI / 2) + w'
           - Rtrigo_def.sin (x * Rtrigo1.PI / 2))%R with w' by lra.
  split; [exact Hb |].
  pose proof (SIN_bound (x * Rtrigo1.PI / 2)) as [Hl Hu].
  apply Rabs_le_inv in Hb. apply Rabs_le. lra.
Qed.

Lemma overfit_model_near_truth_witness :
  (1 < 10)%R /\ (0 <= 2)%R
  /\ exists v : R,
       model (calculateModelFunction [] (Fin 10) RegularizationType.L2
                (Fin 2) (Fin 0.5)) (Fin 1) = Fin v
       /\ (Rabs v <= 1 + 0.7 * Rabs 0.5)%R.
Proof.
  assert (Hc : (1 < 10)%R) by lra.
  assert (Hs : (0 <= 2)%R) by lra.
  split; [exact Hc |]. split; [exact Hs |].
  destruct (overfit_model_near_truth [] RegularizationType.L2 10 2 0.5 1 Hc Hs)
    as (v & H1 & _ & H3).
  exists v. split; [exact H1 | exact H3].
Defined.

(* ================================================================== *)
(** ** Further properties: the least-squares line *)

Lemma sigma_nonneg (f : R * R -> R) (l : list (R * R)) :
  (forall p, (0 <= f p)%R) -> (0 <= sigma f l)%R.
Proof.
  intros Hf. induction l as [| p l IH].
  - rewrite sigma_nil. lra.
  - rewrite sigma_cons. pose proof (Hf p). lra.
Qed.

Lemma sigma_residual (m b : R) (l : list (R * R)) :
  sigma (residual m b) l
  = (sigmaY l - m * sigmaX l - INR (List.length l) * b)%R.
Proof.
  unfold sigmaY, sigmaX. induction l as [| p l IH].
  - rewrite !sigma_nil. simpl. lra.
  - rewrite !sigma_cons, IH. cbn [List.length]. rewrite S_INR.
    unfold residual. lra.
Qed.

Lemma sigma_x_residual (m b : R) (l : list (R * R)) :
  sigma (fun p => (fst p * residual m b p)%R) l
  = (sigmaXY l - m * sigmaX2 l - b * sigmaX l)%R.
Proof.
  unfold sigmaXY, sigmaX2, sigmaX. induction l as [| p l IH].
  - rewrite !sigma_nil. lra.
  - rewrite !sigma_cons, IH. cbv beta. unfold residual. lra.
Qed.

Lemma ols_normal_equations (l : list (R * R)) :
  twoDistinctX l ->
  sigmaY l
  = (olsSlope l * sigmaX l + INR (List.length l) * olsIntercept l)%R
  /\ sigmaXY l = (olsSlope l * sigmaX2 l + olsIntercept l * sigmaX l)%R.
Proof.
  intros Hx.
  pose proof (olsDenominator_pos l Hx) as Hd.
  pose proof (twoDistinctX_length l Hx) as Hn.
  assert (Hb : (INR (List.length l) * olsIntercept l
                = sigmaY l - olsSlope l * sigmaX l)%R).
  { unfold olsIntercept. field. lra. }
  assert (Hm : (olsSlope l * olsDenominator l
                = INR (List.length l) * sigmaXY l - sigmaX l * sigmaY l)%R).
  { unfold olsSlope. field. lra. }
  split; [lra |].
  unfold olsDenominator in Hm.
  apply (Rmult_eq_reg_l (INR (List.length l))); [| lra].
  replace (INR (List.length l)
           * (olsSlope l * sigmaX2 l + olsIntercept l * sigmaX l))%R
    with (olsSlope l * (INR (List.length l) * sigmaX2 l)
          + (INR (List.length l) * olsIntercept l) * sigmaX l)%R by ring.
  rewrite Hb. lra.
Qed.

(** With at least two distinct x-values, the line of the underfitting case
    satisfies the normal equations: its residuals sum to zero, so do the
    residuals weighted by x, and the line passes through the centroid
    [(sum(x)/n, sum(y)/n)] of the training set. *)
Theorem least_squares_normal_equations (l : list (R * R))
  (complexity : number) (regType : RegularizationType.t)
  (regStrength noise : number) :
  twoDistinctX l ->
  (complexity <=? Fin 1) = true ->
  let fit :=
    calculateModelFunction (finiteData l) complexity regType regStrength noise
  in
  let n := INR (List.length l) in
  sigma (residual (olsSlope l) (olsIntercept l)) l = 0%R
  /\ sigma (fun p => (fst p * residual (olsSlope l) (olsIntercept l) p)%R) l
     = 0%R
  /\ model fit (Fin (sigmaX l / n)) = Fin (sigmaY l / n).
Proof.
  intros Hx Hc fit n. unfold n.
  destruct (ols_normal_equations l Hx) as [H1 H2].
  pose proof (olsDenominator_pos l Hx) as Hd.
  pose proof (twoDistinctX_length l Hx) as Hn.
  split; [rewrite sigma_residual; lra |].
  split; [rewrite sigma_x_residual; lra |].
  unfold fit. rewrite calculateModelFunction_underfit_eq by exact Hc.
  cbn [model]. rewrite slope_finite, intercept_finite by lra.
  cbn [mul add]. f_equal. rewrite H1. field. lra.
Qed.

Lemma least_squares_normal_equations_witness :
  twoDistinctX [(0, 1); (1, 3); (2, 2)]%R
  /\ (Fin 1 <=? Fin 1) = true
  /\ sigma (residual (olsSlope [(0, 1); (1, 3); (2, 2)]%R)
              (olsIntercept [(0, 1); (1, 3); (2, 2)]%R))
       [(0, 1); (1, 3); (2, 2)]%R = 0%R.
Proof.
  assert (Hx : twoDistinctX [(0, 1); (1, 3); (2, 2)]%R).
  { exists (0, 1)%R, (1, 3)%R.
    split; [left; reflexivity |].
    split; [right; left; reflexivity | simpl; lra]. }
  assert (Hc : (Fin 1 <=? Fin 1) = true) by (apply Rleb_true; lra).
  split; [exact Hx |]. split; [exact Hc |].
  exact (proj1 (least_squares_normal_equations [(0, 1); (1, 3); (2, 2)]%R
                  (Fin 1) RegularizationType.None (Fin 0) (Fin 0.5) Hx Hc)).
Defined.

Lemma on_line_sums (a c : R) (l : list (R * R)) :
  (forall p, In p l -> snd p = (a * fst p + c)%R) ->
  sigmaY l = (a * sigmaX l + INR (List.length l) * c)%R
  /\ sigmaXY l = (a * sigmaX2 l + c * sigmaX l)%R.
Proof.
  unfold sigmaY, sigmaX, sigmaXY, sigmaX2.
  induction l as [| p l IH]; intros Hl.
  - rewrite !sigma_nil. simpl. split; lra.
  - destruct IH as [H1 H2]; [intros q Hq; apply Hl; right; exact Hq |].
    rewrite !sigma_cons, H1, H2. cbv beta. cbn [List.length]. rewrite S_INR.
    rewrite (Hl p (or_introl eq_refl)). split; lra.
Qed.

(** When the training points lie on a line [y = a*x + c] (and have at least
    two distinct x-values), the underfitting case returns that line. *)
Theorem least_squares_recovers_line (a c : R) (l : list (R * R))
  (complexity : number) (regType : RegularizationType.t)
  (regStrength noise : number) (x : R) :
  (forall p, In p l -> snd p = (a * fst p + c)%R) ->
  twoDistinctX l ->
  (complexity <=? Fin 1) = true ->
  olsSlope l = a
  /\ olsIntercept l = c
  /\ model (calculateModelFunction (finiteData l) complexity regType
              regStrength noise) (Fin x)
     = Fin (a * x + c).
Proof.
  intros Hl Hx Hc.
  destruct (on_line_sums a c l Hl) as [H1 H2].
  pose proof (olsDenominator_pos l Hx) as Hd.
  pose proof (twoDistinctX_length l Hx) as Hn.
  assert (Hm : olsSlope l = a).
  { unfold olsSlope. rewrite H1, H2.
    unfold olsDenominator in *. field. lra. }
  assert (Hb : olsIntercept l = c).
  { unfold olsIntercept. rewrite Hm, H1. field. lra. }
  split; [exact Hm |]. split; [exact Hb |].
  rewrite calculateModelFunction_underfit_eq by exact Hc.
  cbn [model]. rewrite slope_finite, intercept_finite by lra.
  rewrite Hm, Hb. reflexivity.
Qed.

Lemma least_squares_recovers_line_witness :
  (forall p, In p [(0, 1); (1, 3)]%R -> snd p = (2 * fst p + 1)%R)
  /\ twoDistinctX [(0, 1); (1, 3)]%R
  /\ (Fin 1 <=? Fin 1) = true
  /\ model (calculateModelFunction (finiteData [(0, 1); (1, 3)]%R) (Fin 1)
              RegularizationType.None (Fin 0) (Fin 0.5)) (Fin 5)
     = Fin (2 * 5 + 1).
Proof.
  assert (Hl : forall p, In p [(0, 1); (1, 3)]%R -> snd p = (2 * fst p + 1)%R).
  { intros p [<- | [<- | []]]; simpl; lra. }
  assert (Hx : twoDistinctX [(0, 1); (1, 3)]%R).
  { exists (0, 1)%R, (1, 3)%R.
    split; [left; reflexivity |].
    split; [right; left; reflexivity | simpl; lra]. }
  assert (Hc : (Fin 1 <=? Fin 1) = true) by (apply Rleb_true; lra).
  split; [exact Hl |]. split; [exact Hx |]. split; [exact Hc |].
  exact (proj2 (proj2 (least_squares_recovers_line 2 1 [(0, 1); (1, 3)]%R
           (Fin 1) RegularizationType.None (Fin 0) (Fin 0.5) 5 Hl Hx Hc))).
Defined.

Lemma sse_shift (m b m' b' : R) (l : list (R * R)) :
  sse m' b' l
  = (sse m b l
     - 2 * (m' - m) * sigma (fun p => (fst p * residual m b p)%R) l
     - 2 * (b' - b) * sigma (residual m b) l
     + sigma (fun p => (((m' - m) * fst p + (b' - b))
                        * ((m' - m) * fst p + (b' - b)))%R) l)%R.
Proof.
  unfold sse. induction l as [| p l IH].
  - rewrite !sigma_nil. ring.
  - rewrite !sigma_cons, IH. cbv beta. unfold residual. ring.
Qed.

(** With at least two distinct x-values, the line of the underfitting case
    minimises the sum of the squared residuals over the training set: no
    other line [y = m'*x + b'] has a smaller one. *)
Theorem least_squares_minimises_error (l : list (R * R))
  (complexity : number) (regType : RegularizationType.t)
  (regStrength noise : number) (m' b' : R) :
  twoDistinctX l ->
  (complexity <=? Fin 1) = true ->
  calculateModelFunction (finiteData l) complexity regType regStrength noise
  = mkFitted (fun x => Fin (olsSlope l) * x + Fin (olsIntercept l))
      underfittingText
  /\ (sse (olsSlope l) (olsIntercept l) l <= sse m' b' l)%R.
Proof.
  intros Hx Hc.
  pose proof (olsDenominator_pos l Hx) as Hd.
  pose proof (twoDistinctX_length l Hx) as Hn.
  split.
  - rewrite calculateModelFunction_underfit_eq by exact Hc.
    rewrite slope_finite, intercept_finite by lra. reflexivity.
  - destruct (ols_normal_equations l Hx) as [H1 H2].
    rewrite (sse_shift (olsSlope l) (olsIntercept l) m' b').
    rewrite sigma_residual, sigma_x_residual.
    replace (sigmaXY l - olsSlope l * sigmaX2 l - olsIntercept l * sigmaX l)%R
      with 0%R by lra.
    replace (sigmaY l - olsSlope l * sigmaX l
             - INR (List.length l) * olsIntercept l)%R with 0%R by lra.
    match goal with
    | |- (_ <= _ - _ - _ + sigma ?f l)%R =>
        assert (Hsq : (0 <= sigma f l)%R)
    end.
    { apply sigma_nonneg. intros p. apply Rle_0_sqr. }
    lra.
Qed.

Lemma least_squares_minimises_error_witness :
  twoDistinctX [(0, 1); (1, 3); (2, 2)]%R
  /\ (Fin 1 <=? Fin 1) = true
  /\ (sse (olsSlope [(0, 1); (1, 3); (2, 2)]%R)
        (olsIntercept [(0, 1); (1, 3); (2, 2)]%R) [(0, 1); (1, 3); (2, 2)]%R
      <= sse 0 2 [(0, 1); (1, 3); (2, 2)]%R)%R.
Proof.
  assert (Hx : twoDistinctX [(0, 1); (1, 3); (2, 2)]%R).
  { exists (0, 1)%R, (1, 3)%R.
    split; [left; reflexivity |].
    split; [right; left; reflexivity | simpl; lra]. }
  assert (Hc : (Fin 1 <=? Fin 1) = true) by (apply Rleb_true; lra).
  split; [exact Hx |]. split; [exact Hc |].
  exact (proj2 (least_squares_minimises_error [(0, 1); (1, 3); (2, 2)]%R
                  (Fin 1) RegularizationType.None (Fin 0) (Fin 0.5) 0 2
                  Hx Hc)).
Defined.

(* ================================================================== *)
(** ** Further properties: the hook [useModelData] *)

Lemma line_x_range (lo hi : R) (steps i : nat) :
  (1 <= steps)%nat -> (lo <= hi)%R -> (i <= steps)%nat ->
  (lo <= lo + INR i * ((hi - lo) / INR steps) <= hi)%R.
Proof.
  intros Hs Hlohi Hi.
  assert (H1 : (1 <= INR steps)%R) by (apply (le_INR 1); exact Hs).
  assert (Hd : (0 < / INR steps)%R) by (apply Rinv_0_lt_compat; lra).
  assert (Hone : (INR steps * / INR steps = 1)%R) by (apply Rinv_r; lra).
  assert (Hi' : (INR i <= INR steps)%R) by (apply le_INR; exact Hi).
  pose proof (pos_INR i) as Hpos.
  assert (Ht0 : (0 <= INR i * / INR steps)%R) by (apply Rmult_le_pos; lra).
  assert (Ht1 : (INR i * / INR steps <= 1)%R).
  { rewrite <- Hone. apply Rmult_le_compat_r; lra. }
  replace (lo + INR i * ((hi - lo) / INR steps))%R
    with (lo + (hi - lo) * (INR i * / INR steps))%R
    by (unfold Rdiv; ring).
  nra.
Qed.

Lemma getLineData_increasing (f : number -> number) (lo hi : R)
  (steps : nat) :
  (1 <= steps)%nat -> (lo < hi)%R ->
  xStrictlyIncreasing (getLineData f (Fin lo, Fin hi) steps).
Proof.
  intros Hs Hlohi.
  assert (H1 : (1 <= INR steps)%R) by (apply (le_INR 1); exact Hs).
  rewrite getLineData_finite_map by exact Hs.
  apply StronglySorted_map_seq. intros a b Hab.
  cbn [DataPoint.x ltb]. apply Rltb_iff. apply lt_INR in Hab.
  assert (Hd : (0 < (hi - lo) / INR steps)%R)
    by (apply Rdiv_lt_0_compat; lra).
  nra.
Qed.

Lemma genX_range (numPoints i : nat) :
  (2 <= numPoints)%nat -> (i < numPoints)%nat ->
  (-2 <= -2 + 4 * INR i / (INR numPoints - 1) <= 2)%R.
Proof.
  intros Hn Hi.
  assert (H2 : (2 <= INR numPoints)%R) by (apply (le_INR 2); exact Hn).
  assert (Hi' : (INR i <= INR numPoints - 1)%R).
  { replace (INR numPoints - 1)%R with (INR (numPoints - 1)).
    - apply le_INR. lia.
    - rewrite minus_INR by lia. simpl. lra. }
  pose proof (pos_INR i) as Hpos.
  assert (Hd : (0 < / (INR numPoints - 1))%R)
    by (apply Rinv_0_lt_compat; lra).
  assert (Hone : ((INR numPoints - 1) * / (INR numPoints - 1) = 1)%R)
    by (apply Rinv_r; lra).
  unfold Rdiv. nra.
Qed.

(** "Regenerate Data" with [complexity > 1] changes neither the model line
    nor the description nor the true line, and it never moves the x-values
    of the training points: only their y-values can change. *)
Theorem regenerateData_keeps_model (st : Hook.State) :
  (Hook.complexity st >? Fin 1) = true ->
  let before := useModelData st in
  let after := useModelData (regenerateData st) in
  Hook.modelLine after = Hook.modelLine before
  /\ Hook.description after = Hook.description before
  /\ Hook.trueLine after = Hook.trueLine before
  /\ map DataPoint.x (Hook.trainingData after)
     = map DataPoint.x (Hook.trainingData before)
  /\ Hook.dataSeed (regenerateData st) = Hook.dataSeed st + Fin 1.
Proof.
  intros Hc before after. apply gtb_one_not_leb in Hc.
  unfold before, after, useModelData, regenerateData.
  cbn [Hook.modelLine Hook.description Hook.trueLine Hook.trainingData
       Hook.complexity Hook.noise Hook.regType Hook.regStrength
       Hook.dataSeed].
  rewrite (calculateModelFunction_overfit_data
             (generateTrainingData 30 (Hook.noise st)
                (Hook.dataSeed st + Fin 1))
             (generateTrainingData 30 (Hook.noise st) (Hook.dataSeed st)))
    by exact Hc.
  split; [reflexivity |]. split; [reflexivity |]. split; [reflexivity |].
  split; [| reflexivity].
  rewrite !generateTrainingData_points, !genPoints_xs. reflexivity.
Qed.

Lemma regenerateData_keeps_model_witness :
  (Hook.complexity initialState >? Fin 1) = true
  /\ Hook.modelLine (useModelData (regenerateData initialState))
     = Hook.modelLine (useModelData initialState).
Proof.
  assert (Hc : (Hook.complexity initialState >? Fin 1) = true).
  { change ((Fin 10 >? Fin 1) = true). apply Rltb_true. lra. }
  split; [exact Hc |].
  exact (proj1 (regenerateData_keeps_model initialState Hc)).
Defined.

(** In every state the true line and the model line have 101 points each,
    at the same x-values, which are finite, increase strictly from [-2] to
    [2], and whose y-values are the ground truth on the true line. *)
Theorem useModelData_lines (st : Hook.State) :
  let d := useModelData st in
  List.length (Hook.trueLine d) = 101%nat
  /\ List.length (Hook.modelLine d) = 101%nat
  /\ map DataPoint.x (Hook.modelLine d) = map DataPoint.x (Hook.trueLine d)
  /\ xStrictlyIncreasing (Hook.trueLine d)
  /\ xStrictlyIncreasing (Hook.modelLine d)
  /\ nth_error (map DataPoint.x (Hook.modelLine d)) 0 = Some (Fin (-2))
  /\ nth_error (map DataPoint.x (Hook.modelLine d)) 100 = Some (Fin 2)
  /\ map DataPoint.y (Hook.trueLine d)
     = map trueFunction (map DataPoint.x (Hook.trueLine d)).
Proof.
  intros d. unfold d, useModelData.
  cbn [Hook.trueLine Hook.modelLine].
  set (fit := calculateModelFunction _ _ _ _ _).
  assert (Hs : (1 <= 100)%nat) by lia.
  assert (Hd : (-2 < 2)%R) by lra.
  split; [rewrite getLineData_points, length_map, length_seq; reflexivity |].
  split; [rewrite getLineData_points, length_map, length_seq; reflexivity |].
  split; [rewrite !getLineData_xs; reflexivity |].
  split; [apply getLineData_increasing; assumption |].
  split; [apply getLineData_increasing; assumption |].
  split; [| split; [| rewrite getLineData_points, !map_map; reflexivity]].
  - rewrite getLineData_finite_map, map_map by exact Hs.
    rewrite nth_error_map, nth_error_seq.
    change (0 <? 101)%nat with true. cbn [option_map Nat.add DataPoint.x].
    do 2 f_equal. change (INR 0) with 0%R. lra.
  - rewrite getLineData_finite_map, map_map by exact Hs.
    rewrite nth_error_map, nth_error_seq.
    change (100 <? 101)%nat with true. cbn [option_map Nat.add DataPoint.x].
    do 2 f_equal. field.
    apply Rgt_not_eq. apply (lt_INR 0). lia.
Qed.

Lemma training_y_bound (t r noiseLevel : R) :
  (0 <= r < 1)%R ->
  (Rabs (Rtrigo_def.sin t + (r - 0.5) * noiseLevel * 2)
   <= 1 + Rabs noiseLevel)%R.
Proof.
  intros Hr.
  pose proof (noise_term_bound r noiseLevel Hr) as Hb.
  apply Rabs_le_inv in Hb.
  pose proof (SIN_bound t) as [Hl Hu].
  apply Rabs_le. lra.
Qed.

(** With the noise level in the range [[0, 1]] of its slider and a finite
    seed, every one of the 30 training points is finite and inside the box
    [[-2, 2] x [-2, 2]] of the chart's axes. *)
Theorem useModelData_training_in_chart (st : Hook.State)
  (noiseLevel seed : R) :
  Hook.noise st = Fin noiseLevel ->
  Hook.dataSeed st = Fin seed ->
  (0 <= noiseLevel <= 1)%R ->
  List.length (Hook.trainingData (useModelData st)) = 30%nat
  /\ Forall inChart (Hook.trainingData (useModelData st)).
Proof.
  intros Hnoise Hseed Hrange.
  unfold useModelData. cbn [Hook.trainingData]. rewrite Hnoise, Hseed.
  assert (Hn : (2 <= 30)%nat) by lia.
  split.
  - rewrite generateTrainingData_points. apply genPoints_length.
  - rewrite generateTrainingData_map. apply Forall_forall. intros p Hp.
    apply in_map_iff in Hp. destruct Hp as (i & <- & Hi).
    apply in_seq in Hi.
    rewrite seedAfter_Fin, genPoint_finite by exact Hn.
    do 2 eexists. split; [reflexivity |].
    split; [apply genX_range; lia |].
    assert (Hr : (0 <= frac_part (Rtrigo_def.sin (seed + INR i) * 10000) < 1)%R).
    { destruct (base_fp (Rtrigo_def.sin (seed + INR i) * 10000)). lra. }
    pose proof (training_y_bound
                  ((-2 + 4 * INR i / (INR 30 - 1)) * Rtrigo1.PI / 2)
                  _ noiseLevel Hr) as Hy.
    apply Rabs_le_inv in Hy.
    rewrite Rabs_right in Hy by lra. lra.
Qed.

Lemma useModelData_training_in_chart_witness :
  Hook.noise initialState = Fin 0.5
  /\ Hook.dataSeed initialState = Fin 1
  /\ (0 <= 0.5 <= 1)%R
  /\ Forall inChart (Hook.trainingData (useModelData initialState)).
Proof.
  assert (Hr : (0 <= 0.5 <= 1)%R) by lra.
  split; [reflexivity |]. split; [reflexivity |]. split; [exact Hr |].
  exact (proj2 (useModelData_training_in_chart initialState 0.5 1
                  eq_refl eq_refl Hr)).
Defined.

(** With [complexity > 1], a strength [>= 0] and the noise level in
    [[0, 1]], every point of the model line is finite and inside the box
    [[-2, 2] x [-2, 2]] of the chart's axes, whatever the kind. *)
Theorem useModelData_model_line_in_chart (st : Hook.State)
  (complexity regStrength noiseLevel : R) :
  Hook.complexity st = Fin complexity ->
  Hook.regStrength st = Fin regStrength ->
  Hook.noise st = Fin noiseLevel ->
  (1 < complexity)%R ->
  (0 <= regStrength)%R ->
  (0 <= noiseLevel <= 1)%R ->
  Forall inChart (Hook.modelLine (useModelData st)).
Proof.
  intros Hcx Hreg Hnoise Hc Hs Hrange.
  unfold useModelData. cbn [Hook.modelLine]. rewrite Hcx, Hreg, Hnoise.
  assert (H100 : (1 <= 100)%nat) by lia.
  rewrite getLineData_finite_map by exact H100.
  apply Forall_forall. intros p Hp.
  apply in_map_iff in Hp. destruct Hp as (i & <- & Hi).
  apply in_seq in Hi.
  set (xi := (-2 + INR i * ((2 - -2) / INR 100))%R).
  destruct (overfit_model_wiggle
              (generateTrainingData 30 (Fin noiseLevel) (Hook.dataSeed st))
              (Hook.regType st) complexity regStrength noiseLevel xi Hc Hs)
    as (w' & Hv & Hb).
  rewrite Hv. do 2 eexists. split; [reflexivity |].
  split.
  - unfold xi. apply line_x_range; [lia | lra | lia].
  - pose proof (SIN_bound (xi * Rtrigo1.PI / 2)) as [Hl Hu].
    apply Rabs_le_inv in Hb. rewrite Rabs_right in Hb by lra. lra.
Qed.

Lemma useModelData_model_line_in_chart_witness :
  Hook.complexity initialState = Fin 10
  /\ Hook.regStrength initialState = Fin 0.0
  /\ Hook.noise initialState = Fin 0.5
  /\ (1 < 10)%R /\ (0 <= 0.0)%R /\ (0 <= 0.5 <= 1)%R
  /\ Forall inChart (Hook.modelLine (useModelData initialState)).
Proof.
  assert (Hc : (1 < 10)%R) by lra.
  assert (Hs : (0 <= 0.0)%R) by lra.
  assert (Hr : (0 <= 0.5 <= 1)%R) by lra.
  split; [reflexivity |]. split; [reflexivity |]. split; [reflexivity |].
  split; [exact Hc |]. split; [exact Hs |]. split; [exact Hr |].
  exact (useModelData_model_line_in_chart initialState 10 0.0 0.5
           eq_refl eq_refl eq_refl Hc Hs Hr).
Defined.

(** With the noise level [0], [complexity > 1] and a strength [>= 0], the
    model line is the true line, point for point, whatever the kind and the
    seed. *)
Theorem useModelData_zero_noise (st : Hook.State)
  (complexity regStrength : R) :
  Hook.complexity st = Fin complexity ->
  Hook.regStrength st = Fin regStrength ->
  Hook.noise st = Fin 0 ->
  (1 < complexity)%R ->
  (0 <= regStrength)%R ->
  Hook.modelLine (useModelData st) = Hook.trueLine (useModelData st).
Proof.
  intros Hcx Hreg Hnoise Hc Hs.
  unfold useModelData. cbn [Hook.modelLine Hook.trueLine].
  rewrite Hcx, Hreg, Hnoise.
  assert (H100 : (1 <= 100)%nat) by lia.
  rewrite !getLineData_finite_map by exact H100.
  apply map_ext. intros i.
  set (xi := (-2 + INR i * ((2 - -2) / INR 100))%R).
  destruct (overfit_model_wiggle
              (generateTrainingData 30 (Fin 0) (Hook.dataSeed st))
              (Hook.regType st) complexity regStrength 0 xi Hc Hs)
    as (w' & Hv & Hb).
  rewrite Hv, trueFunction_finite. do 2 f_equal.
  rewrite Rabs_R0 in Hb.
  assert (Hw : w' = 0%R).
  { pose proof (Rabs_pos w') as Hp.
    assert (Hz : Rabs w' = 0%R) by lra.
    destruct (Req_dec_T w' 0) as [E | E]; [exact E |].
    apply Rabs_no_R0 in E. contradiction. }
  lra.
Qed.

Lemma useModelData_zero_noise_witness :
  (1 < 10)%R /\ (0 <= 2)%R
  /\ Hook.modelLine
       (useModelData (Hook.mkState (Fin 10) (Fin 0) RegularizationType.L1
                        (Fin 2) (Fin 1)))
     = Hook.trueLine
         (useModelData (Hook.mkState (Fin 10) (Fin 0) RegularizationType.L1
                          (Fin 2) (Fin 1))).
Proof.
  assert (Hc : (1 < 10)%R) by lra.
  assert (Hs : (0 <= 2)%R) by lra.
  split; [exact Hc |]. split; [exact Hs |].
  exact (useModelData_zero_noise
           (Hook.mkState (Fin 10) (Fin 0) RegularizationType.L1 (Fin 2) (Fin 1))
           10 2 eq_refl eq_refl eq_refl Hc Hs).
Defined.
